(** * Waifu2x data loader: patch grids, degradation, fetch and collation

    A shallow embedding of [dataloader.py] and the properties of its
    patch-grid planner ([ImageData.get_img_grids]), its degradation engine
    ([ImageAugment]), its index-addressed fetch ([ImageData.__getitem__])
    and its batch collation ([ImageLoader.batch_collector]).

    Python integers are unbounded and are modelled by [Z]; [//] is floor
    division ([Z.div]).  The shrink size is taken to be an integer, as its
    default is; [int (x / y)] of two integers is then the truncated
    quotient [Z.quot] (the float quotient is exact enough for that as long
    as the operands stay below [2 ^ 53], which image dimensions do).
    Exceptions are values of [exn]; the global [random] generator is
    threaded explicitly as the list of draws still to come. *)

From stdpp Require Import base tactics option list list_numbers strings.
From Stdlib Require Import ZArith Lia.

Local Open Scope Z_scope.

(** ** Exceptions and the two effect monads *)

Inductive exn : Type :=
| ZeroDivisionError
| ValueError (msg : string)
| IndexError
| KeyError (msg : string)
| RuntimeError (msg : string).

Inductive result (A : Type) : Type :=
| Ok (a : A)
| Raise (e : exn).
Arguments Ok {A} a.
Arguments Raise {A} e.

#[global] Instance result_ret : MRet result := λ A, Ok.
#[global] Instance result_bind : MBind result := λ A B f m,
  match m with
  | Ok a => f a
  | Raise e => Raise e
  end.

(** The state of the process-wide [random] generator: the raw draws it is
    going to deliver, in order.  An exhausted list delivers zeros, so that
    every run is determined by a finite list, and quantifying over all
    lists covers every behaviour of the generator. *)
Definition Rng : Type := list nat.

(** A computation that may draw random numbers and may raise. *)
Definition M (A : Type) : Type := Rng → result A * Rng.

#[global] Instance M_ret : MRet M := λ A a g, (Ok a, g).
#[global] Instance M_bind : MBind M := λ A B f m g,
  match m g with
  | (Ok a, g') => f a g'
  | (Raise e, g') => (Raise e, g')
  end.

Definition raise {A} (e : exn) : M A := λ g, (Raise e, g).
Definition lift {A} (r : result A) : M A := λ g, (r, g).

(** ** The [random] module *)

Definition next_draw : M nat := λ g,
  match g with
  | [] => (Ok 0%nat, [])
  | d :: g' => (Ok d, g')
  end.

(** [random._randbelow n]: an integer in [[0, n)]. *)
Definition randbelow (n : nat) : M nat :=
  d ← next_draw;
  mret (match n with O => O | S _ => d `mod` n end)%nat.

(** [random.choice seq] is [seq[_randbelow(len(seq))]]. *)
Definition choice {A} (seq : list A) : M A :=
  j ← randbelow (length seq);
  match seq !! j with
  | Some x => mret x
  | None => raise IndexError
  end.

(** The selection loop of [random.sample]:
<<
    pool = list(population)
    for i in range(k):
        j = randbelow(n-i)
        result[i] = pool[j]
        pool[j] = pool[n-i-1]
>>
    [m] is the number [n-i] of live entries of [pool]. *)
Fixpoint sample_pool {A} (pool : list A) (m k : nat) : M (list A) :=
  match k with
  | O => mret []
  | S k' =>
      j ← randbelow m;
      match pool !! j, pool !! (m - 1)%nat with
      | Some x, Some y =>
          rest ← sample_pool (<[j := y]> pool) (m - 1)%nat k';
          mret (x :: rest)
      | _, _ => raise IndexError
      end
  end.

(** [random.sample population k].  The library picks [k] distinct positions
    either through the pool above or, for large populations, through a set
    of already selected positions; both deliver every arrangement of [k]
    distinct positions, and the pool is the one modelled. *)
Definition sample {A} (population : list A) (k : Z) : M (list A) :=
  let n := length population in
  if bool_decide (0 ≤ k ≤ Z.of_nat n)
  then sample_pool population n (Z.to_nat k)
  else raise (ValueError "Sample larger than population or is negative").

(** ** The codec (PIL) as far as the loader uses it *)

Inductive Filter : Type := NEAREST | LANCZOS | BILINEAR | BICUBIC.

Inductive Mode : Type := RGB | YCbCr | L.

(** A crop box as [Image.crop] takes it. *)
Definition Box : Type := Z * Z * Z * Z.

(** Pixel values are left to the codec: an image is the record of how it
    was obtained, which fixes its size and its mode.  Widths and heights of
    images are natural numbers. *)
Inductive Image : Type :=
| Raster (sz : N * N) (m : Mode) (name : string)
| Crop (box : Box) (src : Image)
| Resize (sz : N * N) (f : Filter) (src : Image)
| JpegRoundTrip (quality : Z) (src : Image)
| Convert (m : Mode) (src : Image)
| Band (k : nat) (src : Image).

Fixpoint size (img : Image) : Z * Z :=
  match img with
  | Raster sz _ _ => (Z.of_N sz.1, Z.of_N sz.2)
  | Crop (x0, y0, x1, y1) _ =>
      (* box = (left, upper, right, lower); a box with right < left or
         lower < upper gives a side of 0 here (releases of the codec that
         refuse such a box are not modelled) *)
      (Z.max 0 (x1 - x0), Z.max 0 (y1 - y0))
  | Resize sz _ _ => (Z.of_N sz.1, Z.of_N sz.2)
  | JpegRoundTrip _ src => size src
  | Convert _ src => size src
  | Band _ src => size src
  end.

Fixpoint mode (img : Image) : Mode :=
  match img with
  | Raster _ m _ => m
  | Crop _ src => mode src
  | Resize _ _ src => mode src
  | JpegRoundTrip _ src => mode src
  | Convert m _ => m
  | Band _ _ => L
  end.

Definition bands_of (m : Mode) : nat :=
  match m with
  | RGB => 3
  | YCbCr => 3
  | L => 1
  end%nat.

Definition channels (img : Image) : nat := bands_of (mode img).

(** [Image.split]: one single-band image per band. *)
Definition split (img : Image) : list Image :=
  (λ k, Band k img) <$> seq 0 (channels img).

(** ** ImageData.get_img_grids *)

Definition patch_box_at (patch_size i j : Z) : Box :=
  (patch_size * i, patch_size * j, patch_size * (i + 1), patch_size * (j + 1)).

(** The two nested loops with their guard. *)
Definition tiling (patch_size img_w img_h count_w count_h : Z) : list Box :=
  i ← seqZ 0 count_h;
  j ← seqZ 0 count_w;
  if bool_decide (patch_size * (j + 1) ≤ img_h ∧ patch_size * (i + 1) ≤ img_w)
  then [patch_box_at patch_size i j]
  else [].

Definition get_img_grids (patch_size max_path_per_img : Z) (img : Image)
  : M (list Box) :=
  let '(img_w, img_h) := size img in
  if bool_decide (patch_size = 0) then raise ZeroDivisionError else
  let count_w := img_w `div` patch_size in
  let count_h := img_h `div` patch_size in
  let patch_box := tiling patch_size img_w img_h count_w count_h in
  if bool_decide (Z.of_nat (length patch_box) > max_path_per_img)
  then sample patch_box max_path_per_img
  else mret patch_box.

(** ** ImageAugment *)

Record ImageAugment : Type := {
  noise_level : Z * Z;
  shrink_size : Z;
  down_sample_method : option Filter
}.

Definition ImageAugment_init
    (shrink_size noise_level : Z) (down_sample_method : option Filter)
  : result ImageAugment :=
  range ←
    (if bool_decide (noise_level = 0) then Ok (0, 0)
     else if bool_decide (noise_level = 1) then Ok (5, 25)
     else if bool_decide (noise_level = 2) then Ok (25, 50)
     else Raise (KeyError "Noise level should be either 0, 1, 2"));
  mret {| noise_level := range;
          shrink_size := shrink_size;
          down_sample_method := down_sample_method |}.

(** [round (random.uniform lo hi)] for [lo ≤ hi]: the float draw is not
    modelled, only that its rounding is some integer of [[lo, hi]]. *)
Definition round_uniform (lo hi : Z) : M Z :=
  d ← next_draw;
  mret (lo + Z.of_nat d `mod` (hi - lo + 1)).

(** The data set, as [ImageData.__init__] leaves it.  [img_folder] stands
    for the files [glob] finds under the folder, each with its decoded
    content. *)
Record ImageData : Type := {
  img_folder : list Image;
  max_path_per_img : Z;
  patch_size : Z;
  color_mod : string;
  img_augmenter : ImageAugment;
  patch_grids : list (Image * Image)
}.

(** ** Tensors *)

Inductive Device : Type := CPU | CUDA.

(** An entry of a tensor: a padding zero, or the value of one band of one
    image at one position, scaled as [to_tensor] does. *)
Inductive Scalar : Type :=
| Zero
| Px (img : Image) (c y x : Z).

Record Tensor : Type := {
  shape : list Z;
  data : list Scalar;
  device : Device
}.

(** [torchvision.transforms.functional.to_tensor]: channel first. *)
Definition to_tensor (pic : Image) : Tensor :=
  let '(w, h) := size pic in
  let nc := Z.of_nat (channels pic) in
  {| shape := [nc; h; w];
     data := c ← seqZ 0 nc; y ← seqZ 0 h; x ← seqZ 0 w; [Px pic c y x];
     device := CPU |}.

(** [torch.stack tensors dim=0]. *)
Definition stack (tensors : list Tensor) : result Tensor :=
  match tensors with
  | [] => Raise (RuntimeError "stack expects a non-empty TensorList")
  | t :: rest =>
      if forallb (λ t', bool_decide (shape t' = shape t)) rest
      then Ok {| shape := Z.of_nat (length tensors) :: shape t;
                 data := mjoin (data <$> tensors);
                 device := device t |}
      else Raise (RuntimeError "stack expects each tensor to be equal size")
  end.

(** [nn.ZeroPad2d pad] on a batch [(N, C, H, W)]: [pad] zeros on each of the
    four spatial edges (a negative [pad] crops). *)
Definition ZeroPad2d (pad : Z) (t : Tensor) : result Tensor :=
  match shape t with
  | [n; c; h; w] =>
      let h' := h + 2 * pad in
      let w' := w + 2 * pad in
      if bool_decide (0 ≤ h' ∧ 0 ≤ w')
      then Ok {| shape := [n; c; h'; w'];
                 data :=
                   b ← seqZ 0 n; k ← seqZ 0 c; y ← seqZ 0 h'; x ← seqZ 0 w';
                   [if bool_decide (pad ≤ y < pad + h ∧ pad ≤ x < pad + w)
                    then default Zero
                           (data t !! Z.to_nat
                              (((b * c + k) * h + (y - pad)) * w + (x - pad)))
                    else Zero];
                 device := device t |}
      else Raise (RuntimeError "Padding size should be less than the input")
  | _ => Raise (RuntimeError "ZeroPad2d expects a batch of images")
  end.

Definition cuda (t : Tensor) : Tensor :=
  {| shape := shape t; data := data t; device := CUDA |}.

(** What [batch_collector] returns first: the low-resolution batch alone,
    or paired with its upsampled guide. *)
Inductive LowBatch : Type :=
| Alone (lr_img : Tensor)
| WithGuide (lr_img lr_img_up : Tensor).

Definition low_tensor (b : LowBatch) : Tensor :=
  match b with
  | Alone t => t
  | WithGuide t _ => t
  end.

Record ImageLoader : Type := {
  dataset : ImageData;
  loader_up_sample : option Filter;
  pad_img : Z
}.

(** Python sequence indexing: a negative index counts from the end. *)
Definition list_getitem {A} (l : list A) (index : Z) : result A :=
  let i := if bool_decide (index < 0) then index + Z.of_nat (length l) else index in
  if bool_decide (0 ≤ i)
  then match l !! Z.to_nat i with
       | Some x => Ok x
       | None => Raise IndexError
       end
  else Raise IndexError.

(** [a, _, _ = bands]: unpacking needs exactly three values. *)
Definition first_of_three {A} (l : list A) : result A :=
  match l with
  | [a; _; _] => Ok a
  | _ => Raise (ValueError "wrong number of values to unpack")
  end.

(** ImageData.__getitem__ *)
Definition getitem (self : ImageData) (index : Z) : result (Image * Image) :=
  patch ← list_getitem (patch_grids self) index;
  if String.eqb (color_mod self) "RGB" then
    mret (Convert RGB patch.1, Convert RGB patch.2)
  else if String.eqb (color_mod self) "YCbCr" then
    lr_img ← first_of_three (split (Convert YCbCr patch.1));
    hr_img ← first_of_three (split (Convert YCbCr patch.2));
    mret (lr_img, hr_img)
  else Raise (KeyError "Either RGB or YCbCr").

(** ImageData.__len__ *)
Definition len (self : ImageData) : Z := Z.of_nat (length (patch_grids self)).

Section Environment.

(** Which target sizes [Image.resize] of the codec at hand carries out;
    on the others, and on every negative one, it raises. *)
Variable resizable : Z * Z → bool.

(** [torch.cuda.is_available ()] *)
Variable use_cuda : bool.

Definition pil_resize (img : Image) (sz : Z * Z) (resample : Filter)
  : result Image :=
  if bool_decide (0 ≤ sz.1 ∧ 0 ≤ sz.2) && resizable sz
  then Ok (Resize (Z.to_N sz.1, Z.to_N sz.2) resample img)
  else Raise (ValueError "height and width must be > 0").

(** ImageAugment.shrink_img.  The filter is drawn before the quotients are
    computed, so a zero shrink size raises after the draw. *)
Definition shrink_img (self : ImageAugment) (hr_img : Image) : M Image :=
  resample_method ←
    match down_sample_method self with
    | None => choice [BILINEAR; BICUBIC; LANCZOS]
    | Some m => mret m
    end;
  if bool_decide (shrink_size self = 0) then raise ZeroDivisionError else
  let '(w, h) := size hr_img in
  let img_w := w `quot` shrink_size self in
  let img_h := h `quot` shrink_size self in
  lift (pil_resize hr_img (img_w, img_h) resample_method).

(** ImageAugment.add_jpeg_noise *)
Definition add_jpeg_noise (self : ImageAugment) (hr_img : Image) : M Image :=
  r ← round_uniform (noise_level self).1 (noise_level self).2;
  let quality := 100 - r in
  mret (JpegRoundTrip quality hr_img).

(** ImageAugment.process *)
Definition process (self : ImageAugment) (hr_patch : Image) (grid : Box)
  : M (Image * Image) :=
  let hr_patch := Crop grid hr_patch in
  lr_patch ← shrink_img self hr_patch;
  lr_patch ←
    (if bool_decide ((noise_level self).2 > 0)
     then add_jpeg_noise self lr_patch
     else mret lr_patch);
  mret (lr_patch, hr_patch).

(** ImageAugment.up_sample *)
Definition up_sample (self : ImageAugment) (img : Image) (resample : Filter)
  : result Image :=
  let '(width, height) := size img in
  pil_resize img (shrink_size self * width, shrink_size self * height) resample.

(** ImageData.get_img_patches, on a file already opened. *)
Definition get_img_patches
    (patch_size max_path_per_img : Z) (img_augmenter : ImageAugment)
    (img_file : Image) : M (list (Image * Image)) :=
  let img := Convert RGB img_file in
  img_grids ← get_img_grids patch_size max_path_per_img img;
  mapM (process img_augmenter img) img_grids.

(** ImageData.get_img_patch_grids.  The pool of four threads maps the
    files in order, and its workers share the generator: the draws are
    handed out here file after file, whereas the pool interleaves them.  A
    run of the pool is a run of this definition on the draws permuted, so
    what holds for every state of the generator holds for every
    interleaving; which draw goes to which file is not modelled. *)
Definition get_img_patch_grids
    (file_names : list Image) (patch_size max_path_per_img : Z)
    (img_augmenter : ImageAugment) : M (list (Image * Image)) :=
  patch_grids ←
    mapM (get_img_patches patch_size max_path_per_img img_augmenter) file_names;
  mret (mjoin patch_grids).

(** ImageData.__init__ *)
Definition ImageData_init
    (img_folder : list Image) (max_patch_per_img patch_size shrink_size
     noise_level : Z) (down_sample_method : option Filter) (color_mod : string)
  : M ImageData :=
  img_augmenter ← lift (ImageAugment_init shrink_size noise_level down_sample_method);
  patch_grids ←
    get_img_patch_grids img_folder patch_size max_patch_per_img img_augmenter;
  mret {| img_folder := img_folder;
          max_path_per_img := max_patch_per_img;
          patch_size := patch_size;
          color_mod := color_mod;
          img_augmenter := img_augmenter;
          patch_grids := patch_grids |}.

Definition on_device (t : Tensor) : Tensor := if use_cuda then cuda t else t.

(** ImageLoader.batch_collector *)
Definition batch_collector (self : ImageLoader) (batch : list (Image * Image))
  : result (LowBatch * Tensor) :=
  lr_img ← stack ((λ i, to_tensor i.1) <$> batch);
  hr_img ← stack ((λ i, to_tensor i.2) <$> batch);
  lr_img ← (if bool_decide (pad_img self ≠ 0)
            then ZeroPad2d (pad_img self) lr_img
            else mret lr_img);
  let lr_img := on_device lr_img in
  let hr_img := on_device hr_img in
  match loader_up_sample self with
  | Some resample =>
      lr_img_up ←
        mapM (λ i, up_sample (img_augmenter (dataset self)) i.1 resample) batch;
      lr_img_up ← stack (to_tensor <$> lr_img_up);
      mret (WithGuide lr_img (on_device lr_img_up), hr_img)
  | None => mret (Alone lr_img, hr_img)
  end.

End Environment.

(** A codec that refuses target sizes below one pixel, and one that
    carries out every resize. *)
Definition one_pixel_or_more (sz : Z * Z) : bool :=
  bool_decide (1 ≤ sz.1) && bool_decide (1 ≤ sz.2).

Definition any_size (sz : Z * Z) : bool := true.

(** ** Vocabulary of the properties *)

(** The boxes [get_img_grids] collects for an image before the cap. *)
Definition full_grid (patch_size : Z) (img : Image) : list Box :=
  let '(img_w, img_h) := size img in
  tiling patch_size img_w img_h (img_w `div` patch_size) (img_h `div` patch_size).

(** The box read as a patch box [(top, left, bottom, right)]: the first and
    third coordinates come from the counter that runs over [count_h], the
    second and fourth from the one that runs over [count_w]. *)
Definition within_as_patch_box (img : Image) (box : Box) : Prop :=
  let '(top, lft, bottom, rgt) := box in
  let '(img_w, img_h) := size img in
  0 ≤ top ∧ bottom ≤ img_h ∧ 0 ≤ lft ∧ rgt ≤ img_w.

(** The box read as [Image.crop] reads it, [(left, upper, right, lower)]. *)
Definition within_as_cropped (img : Image) (box : Box) : Prop :=
  let '(lft, upper, rgt, lower) := box in
  let '(img_w, img_h) := size img in
  0 ≤ lft ∧ rgt ≤ img_w ∧ 0 ≤ upper ∧ lower ≤ img_h.

(** The two side lengths of a box. *)
Definition sides (box : Box) : Z * Z :=
  let '(a, b, c, d) := box in (c - a, d - b).

(** The cells a box covers, and boxes that share a cell. *)
Definition covers (box : Box) (u v : Z) : Prop :=
  let '(a, b, c, d) := box in a ≤ u < c ∧ b ≤ v < d.

Definition overlap (box1 box2 : Box) : Prop :=
  ∃ u v, covers box1 u v ∧ covers box2 u v.

(** How many lossy re-encodings an image has gone through. *)
Fixpoint jpeg_steps (img : Image) : nat :=
  match img with
  | Raster _ _ _ => 0
  | Crop _ src => jpeg_steps src
  | Resize _ _ src => jpeg_steps src
  | JpegRoundTrip _ src => S (jpeg_steps src)
  | Convert _ src => jpeg_steps src
  | Band _ src => jpeg_steps src
  end.

(** The target size [shrink_img] asks the codec for. *)
Definition shrink_target (self : ImageAugment) (hr_img : Image) : Z * Z :=
  ((size hr_img).1 `quot` shrink_size self, (size hr_img).2 `quot` shrink_size self).

(** An augmenter that halves with a fixed filter and adds no noise. *)
Definition halving : ImageAugment :=
  {| noise_level := (0, 0); shrink_size := 2; down_sample_method := Some BICUBIC |}.

(** The guide batch, when there is one. *)
Definition guide (b : LowBatch) : option Tensor :=
  match b with
  | Alone _ => None
  | WithGuide _ t => Some t
  end.

(** A loader over a data set, as [ImageLoader.__init__] leaves it. *)
Definition loader (ds : ImageData) (up : option Filter) (pad : Z) : ImageLoader :=
  {| dataset := ds; loader_up_sample := up; pad_img := pad |}.

(** A corpus of two patch pairs cut from one image of 8 by 4 pixels. *)
Definition two_pairs : list (Image * Image) :=
  [(Resize (2, 2)%N BICUBIC (Crop (0, 0, 4, 4) (Raster (8, 4)%N RGB "a.png")),
    Crop (0, 0, 4, 4) (Raster (8, 4)%N RGB "a.png"));
   (Resize (2, 2)%N BICUBIC (Crop (4, 0, 8, 4) (Raster (8, 4)%N RGB "a.png")),
    Crop (4, 0, 8, 4) (Raster (8, 4)%N RGB "a.png"))].

Definition corpus_in (color : string) : ImageData :=
  {| img_folder := [Raster (8, 4)%N RGB "a.png"];
     max_path_per_img := 10;
     patch_size := 4;
     color_mod := color;
     img_augmenter := halving;
     patch_grids := two_pairs |}.

(** The entry of a batch tensor [(N, C, H, W)] at image [b], channel [k],
    row [y] and column [x], in row-major order. *)
Definition entry (t : Tensor) (b k y x : Z) : Scalar :=
  match shape t with
  | [n; c; h; w] =>
      default Zero (data t !! Z.to_nat (((b * c + k) * h + y) * w + x))
  | _ => Zero
  end.

(** The smaller of the two counts of an image. *)
Definition square_count (patch_size : Z) (img : Image) : Z :=
  Z.min ((size img).1 `div` patch_size) ((size img).2 `div` patch_size).

(** The boxes of the square grid on [m] counts, row after row. *)
Definition square_grid (patch_size m : Z) : list Box :=
  i ← seqZ 0 m; j ← seqZ 0 m; [patch_box_at patch_size i j].

(** How many boxes the planner leaves of an image under a cap. *)
Definition planned (patch_size cap : Z) (img : Image) : Z :=
  Z.min (square_count patch_size img * square_count patch_size img) cap.

(** The low-resolution image the engine makes of a patch: its resize to the
    shrink target, re-encoded or not. *)
Definition degraded_from (self : ImageAugment) (lr hr : Image) : Prop :=
  ∃ m,
    let shrunk :=
      Resize (Z.to_N (shrink_target self hr).1, Z.to_N (shrink_target self hr).2)
        m hr in
    lr = shrunk ∨
    ∃ q, lr = JpegRoundTrip q shrunk ∧
         100 - (noise_level self).2 ≤ q ≤ 100 - (noise_level self).1.

(** The device the collated tensors are left on. *)
Definition target_device (use_cuda : bool) : Device :=
  if use_cuda then CUDA else CPU.

(** The channels of a fetched image under a colour mode. *)
Definition fetched_channels (color : string) : Z :=
  if String.eqb color "RGB" then 3 else 1.

(** A corpus built with noise from one image of 64 by 64 pixels, and its
    first pair. *)
Definition noisy_draws : Rng := [0; 9; 1; 8; 2; 7; 0; 6]%nat.

Definition noisy_corpus : ImageData :=
  Eval vm_compute in
    match (ImageData_init one_pixel_or_more [Raster (64, 64)%N RGB "a.png"]
             10 32 2 1 None "RGB" noisy_draws).1 with
    | Ok ds => ds
    | Raise _ => corpus_in "RGB"
    end.

Definition first_noisy_pair : Image * Image :=
  Eval vm_compute in
    match patch_grids noisy_corpus with
    | p :: _ => p
    | [] => (Raster (0, 0)%N RGB "", Raster (0, 0)%N RGB "")
    end.

(** A folder of three files, the second too narrow for a patch of 32, and
    the corpus built from it under a cap of 3. *)
Definition three_files : list Image :=
  [Raster (64, 64)%N RGB "a.png"; Raster (20, 90)%N RGB "b.png";
   Raster (100, 70)%N RGB "c.png"].

Definition three_files_corpus : ImageData :=
  Eval vm_compute in
    match (ImageData_init one_pixel_or_more three_files
             3 32 2 0 (Some BICUBIC) "RGB" [5; 1]%nat).1 with
    | Ok ds => ds
    | Raise _ => corpus_in "RGB"
    end.

(** A box whose right and lower edges are not before its left and upper
    ones: the boxes every release of the codec crops. *)
Definition ordered_box (box : Box) : Prop :=
  let '(lft, upper, rgt, lower) := box in lft ≤ rgt ∧ upper ≤ lower.

(** * Properties *)

(** ** The random generator *)

Lemma randbelow_lt (n : nat) (g : Rng) :
  (0 < n)%nat → ∃ j g', randbelow n g = (Ok j, g') ∧ (j < n)%nat.
Proof.
  intros Hn. unfold randbelow, mbind, M_bind, mret, M_ret, next_draw.
  destruct n as [|n]; [lia|].
  destruct g as [|d g]; eexists _, _; (split; [reflexivity|]).
  - apply Nat.mod_upper_bound; lia.
  - apply Nat.mod_upper_bound; lia.
Qed.

(** One step of the pool: the picked entry and the shortened pool make up
    the live part of the pool before. *)
Lemma pool_step {A} (pool : list A) (m j : nat) (x y : A) :
  (j < m)%nat →
  pool !! j = Some x →
  pool !! (m - 1)%nat = Some y →
  x :: take (m - 1) (<[j := y]> pool) ≡ₚ take m pool.
Proof.
  intros Hj Hx Hy.
  replace m with (S (m - 1)) at 2 by lia.
  rewrite (take_S_r _ _ y) by done.
  destruct (decide (j = (m - 1)%nat)) as [->|Hne].
  - rewrite take_insert_ge by lia.
    assert (x = y) as -> by congruence.
    by rewrite Permutation_cons_append.
  - rewrite take_insert_lt by lia.
    assert (take (m - 1) pool !! j = Some x) as Ht.
    { rewrite lookup_take_lt by lia. done. }
    rewrite insert_take_drop by (apply lookup_lt_Some in Ht; done).
    rewrite <- (take_drop_middle (take (m - 1) pool) j x) at 3 by done.
    rewrite <- app_assoc. cbn [app].
    rewrite <- !Permutation_middle. by rewrite app_nil_r.
Qed.

Lemma sample_pool_spec {A} (k : nat) :
  ∀ (pool : list A) (m : nat) (g : Rng),
    (k ≤ m ≤ length pool)%nat →
    ∃ res g', sample_pool pool m k g = (Ok res, g') ∧
              length res = k ∧ res ⊆+ take m pool.
Proof.
  induction k as [|k IH]; intros pool m g Hm.
  - exists [], g. split_and!; [done..|]. apply submseteq_nil_l.
  - destruct (randbelow_lt m g) as (j & g1 & Hr & Hj); [lia|].
    destruct (lookup_lt_is_Some_2 pool j) as [x Hx]; [lia|].
    destruct (lookup_lt_is_Some_2 pool (m - 1)) as [y Hy]; [lia|].
    destruct (IH (<[j := y]> pool) (m - 1)%nat g1) as (rest & g2 & Hs & Hl & Hsub).
    { rewrite length_insert. lia. }
    exists (x :: rest), g2. split_and!.
    + cbn [sample_pool]. unfold mbind at 1, M_bind at 1. rewrite Hr, Hx, Hy.
      unfold mbind, M_bind. rewrite Hs. done.
    + cbn. by rewrite Hl.
    + rewrite <- (pool_step pool m j x y) by done.
      by apply submseteq_skip.
Qed.

(** [random.sample] delivers, for [0 ≤ k ≤ len population], exactly [k]
    entries taken from distinct positions of the population. *)
Lemma sample_spec {A} (population : list A) (k : Z) (g : Rng) :
  0 ≤ k ≤ Z.of_nat (length population) →
  ∃ res g', sample population k g = (Ok res, g') ∧
            Z.of_nat (length res) = k ∧ res ⊆+ population.
Proof.
  intros Hk. unfold sample. rewrite bool_decide_eq_true_2 by done.
  destruct (sample_pool_spec (Z.to_nat k) population (length population) g)
    as (res & g' & Hs & Hl & Hsub); [lia|].
  exists res, g'. split_and!; [done|lia|].
  by rewrite firstn_all in Hsub.
Qed.

Lemma sample_Ok {A} (population res : list A) (k : Z) (g g' : Rng) :
  sample population k g = (Ok res, g') →
  Z.of_nat (length res) = k ∧ res ⊆+ population.
Proof.
  intros Hs. unfold sample in Hs. case_bool_decide as Hk.
  - destruct (sample_spec population k g Hk) as (res' & g'' & Hs' & Hl & Hsub).
    unfold sample in Hs'. rewrite bool_decide_eq_true_2 in Hs' by done.
    rewrite Hs in Hs'. by simplify_eq.
  - discriminate.
Qed.

(** ** The patch grid *)

Lemma elem_of_tiling (ps w h cw ch : Z) (box : Box) :
  box ∈ tiling ps w h cw ch ↔
  ∃ i j, 0 ≤ i < ch ∧ 0 ≤ j < cw ∧
         ps * (j + 1) ≤ h ∧ ps * (i + 1) ≤ w ∧ box = patch_box_at ps i j.
Proof.
  unfold tiling. rewrite list_elem_of_bind. split.
  - intros (i & Hin & Hi). apply list_elem_of_bind in Hin as (j & Hin & Hj).
    apply elem_of_seqZ in Hi, Hj. case_bool_decide as Hg.
    + apply list_elem_of_singleton in Hin. exists i, j. split_and!; lia || tauto.
    + by apply not_elem_of_nil in Hin.
  - intros (i & j & Hi & Hj & Hh & Hw & ->). exists i. split.
    + apply list_elem_of_bind. exists j. split; [|apply elem_of_seqZ; lia].
      rewrite bool_decide_eq_true_2 by done. by apply list_elem_of_singleton.
    + apply elem_of_seqZ; lia.
Qed.

Lemma patch_box_at_inj (ps i j i' j' : Z) :
  ps ≠ 0 → patch_box_at ps i j = patch_box_at ps i' j' → i = i' ∧ j = j'.
Proof. unfold patch_box_at. intros Hps [= Hi Hj _ _]. split; nia. Qed.

Lemma NoDup_tiling (ps w h cw ch : Z) : ps ≠ 0 → NoDup (tiling ps w h cw ch).
Proof.
  intros Hps. unfold tiling. apply NoDup_bind; [| |apply NoDup_seqZ].
  - intros i i' box _ _ Hb Hb'.
    apply list_elem_of_bind in Hb as (j & Hb & _).
    apply list_elem_of_bind in Hb' as (j' & Hb' & _).
    repeat case_bool_decide; try by (exfalso; eapply not_elem_of_nil; eauto).
    apply list_elem_of_singleton in Hb, Hb'. subst box.
    by apply patch_box_at_inj in Hb' as [? ?].
  - intros i _. apply NoDup_bind; [| |apply NoDup_seqZ].
    + intros j j' box _ _ Hb Hb'.
      repeat case_bool_decide; try by (exfalso; eapply not_elem_of_nil; eauto).
      apply list_elem_of_singleton in Hb, Hb'. subst box.
      by apply patch_box_at_inj in Hb' as [? ?].
    + intros j _. case_bool_decide; [apply NoDup_singleton|apply NoDup_nil_2].
Qed.

(** Whatever the generator draws, a grid that is returned is made of boxes
    of the full grid, each taken at most once. *)
Lemma get_img_grids_Ok (ps cap : Z) (img : Image) (g g' : Rng) (boxes : list Box) :
  get_img_grids ps cap img g = (Ok boxes, g') →
  ps ≠ 0 ∧ boxes ⊆+ full_grid ps img ∧
  Z.of_nat (length boxes) = Z.min (Z.of_nat (length (full_grid ps img))) cap.
Proof.
  unfold get_img_grids, full_grid. destruct (size img) as [w h].
  case_bool_decide as Hps; [discriminate|].
  case_bool_decide as Hcap; intros Hg.
  - apply sample_Ok in Hg as [Hl Hsub]. split_and!; [done..|lia].
  - injection Hg as <- <-. split_and!; [done..|lia].
Qed.

(** With a patch size other than zero and a cap that is not negative the
    planner returns a grid. *)
Lemma get_img_grids_total (ps cap : Z) (img : Image) (g : Rng) :
  ps ≠ 0 → 0 ≤ cap →
  ∃ boxes g', get_img_grids ps cap img g = (Ok boxes, g').
Proof.
  intros Hps Hcap. unfold get_img_grids. destruct (size img) as [w h].
  rewrite bool_decide_eq_false_2 by done.
  case_bool_decide as Hlen; [|by eexists _, _].
  edestruct (sample_spec (tiling ps w h (w `div` ps) (h `div` ps)) cap g)
    as (res & g' & Hs & _); [lia|]. by exists res, g'.
Qed.

Lemma size_nonneg (img : Image) : 0 ≤ (size img).1 ∧ 0 ≤ (size img).2.
Proof.
  induction img as [sz ? ?|[[[x0 y0] x1] y1] ? ?|sz ? ? ?| | |]; cbn; lia.
Qed.

(** Where a box of the full grid lies: both counters stay below both
    counts, the loop bounding each by its own and the guard by the other. *)
Lemma full_grid_within (ps : Z) (img : Image) (box : Box) :
  0 < ps → box ∈ full_grid ps img →
  within_as_patch_box img box ∧ within_as_cropped img box.
Proof.
  intros Hps. unfold full_grid, within_as_patch_box, within_as_cropped.
  destruct (size img) as [w h]. rewrite elem_of_tiling.
  intros (i & j & Hi & Hj & Hh & Hw & ->). unfold patch_box_at.
  pose proof (Z.mul_div_le w ps Hps). pose proof (Z.mul_div_le h ps Hps).
  split_and!; nia.
Qed.

Lemma submseteq_NoDup {A} (l k : list A) : l ⊆+ k → NoDup k → NoDup l.
Proof.
  intros Hsub Hk. apply submseteq_Permutation in Hsub as [k' Hk'].
  rewrite Hk' in Hk. by apply NoDup_app in Hk as (? & _ & _).
Qed.

Lemma patch_boxes_disjoint (ps i j i' j' : Z) :
  patch_box_at ps i j ≠ patch_box_at ps i' j' →
  ¬ overlap (patch_box_at ps i j) (patch_box_at ps i' j').
Proof.
  intros Hne (u & v & Hc & Hc'). unfold patch_box_at, covers in *.
  apply Hne. assert (i = i') by nia. assert (j = j') by nia. by subst.
Qed.

(** C1. For a positive patch size and a positive cap the planner returns a
    grid, and every box of it lies within the image, each coordinate
    against the dimension it belongs to: the coordinates built from the
    counter over [count_h] stay within the height and those built from the
    counter over [count_w] within the width; the same holds when the box
    is read the way the crop reads it. *)
Theorem grid_boxes_within_image (ps cap : Z) (img : Image) (g : Rng) :
  0 < ps → 0 < cap →
  ∃ boxes g', get_img_grids ps cap img g = (Ok boxes, g') ∧
    ∀ box, box ∈ boxes →
      within_as_patch_box img box ∧ within_as_cropped img box.
Proof.
  intros Hps Hcap.
  destruct (get_img_grids_total ps cap img g) as (boxes & g' & Hg); [lia..|].
  exists boxes, g'. split; [done|]. intros box Hin.
  apply get_img_grids_Ok in Hg as (_ & Hsub & _).
  apply (full_grid_within ps); [done|]. by eapply elem_of_submseteq.
Qed.

Lemma grid_boxes_within_image_witness :
  0 < 32 ∧ 0 < 2 ∧
  ∃ boxes g',
    get_img_grids 32 2 (Raster (96, 64)%N RGB "a.png") [7; 5]%nat = (Ok boxes, g') ∧
    ∀ box, box ∈ boxes →
      within_as_patch_box (Raster (96, 64)%N RGB "a.png") box ∧
      within_as_cropped (Raster (96, 64)%N RGB "a.png") box.
Proof.
  split; [lia|]. split; [lia|].
  apply (grid_boxes_within_image 32 2 (Raster (96, 64)%N RGB "a.png") [7; 5]%nat); lia.
Defined.

(** C9. Every box of a grid the planner returns has both sides equal to the
    patch size, and two boxes at different positions of the grid share no
    cell, be the grid the full one or the sample drawn under the cap. *)
Theorem grid_boxes_square_and_disjoint
    (ps cap : Z) (img : Image) (g g' : Rng) (boxes : list Box) :
  get_img_grids ps cap img g = (Ok boxes, g') →
  (∀ box, box ∈ boxes → sides box = (ps, ps)) ∧
  (∀ p q box1 box2,
     p ≠ q → boxes !! p = Some box1 → boxes !! q = Some box2 →
     ¬ overlap box1 box2).
Proof.
  intros Hg. apply get_img_grids_Ok in Hg as (Hps & Hsub & _).
  assert (∀ box, box ∈ boxes → ∃ i j, box = patch_box_at ps i j) as Hshape.
  { intros box Hin. eapply elem_of_submseteq in Hin; [|done].
    unfold full_grid in Hin. destruct (size img) as [w h].
    apply elem_of_tiling in Hin as (i & j & _ & _ & _ & _ & ->). eauto. }
  split.
  - intros box Hin. destruct (Hshape box Hin) as (i & j & ->).
    unfold sides, patch_box_at. f_equal; lia.
  - intros p q box1 box2 Hpq H1 H2.
    assert (NoDup boxes) as Hnd.
    { eapply submseteq_NoDup; [done|]. unfold full_grid.
      destruct (size img). by apply NoDup_tiling. }
    assert (box1 ≠ box2) as Hne.
    { intros ->. apply Hpq. by eapply NoDup_lookup. }
    destruct (Hshape box1) as (i & j & ->); [by eapply list_elem_of_lookup_2|].
    destruct (Hshape box2) as (i' & j' & ->); [by eapply list_elem_of_lookup_2|].
    by apply patch_boxes_disjoint.
Qed.

Lemma grid_boxes_square_and_disjoint_witness :
  get_img_grids 32 2 (Raster (64, 64)%N RGB "a.png") [7; 5]%nat
    = (Ok [(32, 32, 64, 64); (32, 0, 64, 32)], []) ∧
  (∀ box, box ∈ [(32, 32, 64, 64); (32, 0, 64, 32)] → sides box = (32, 32)) ∧
  (∀ p q box1 box2,
     p ≠ q →
     [(32, 32, 64, 64); (32, 0, 64, 32)] !! p = Some box1 →
     [(32, 32, 64, 64); (32, 0, 64, 32)] !! q = Some box2 →
     ¬ overlap box1 box2).
Proof.
  split; [vm_compute; reflexivity|].
  apply (grid_boxes_square_and_disjoint 32 2 (Raster (64, 64)%N RGB "a.png")
           [7; 5]%nat []).
  vm_compute. reflexivity.
Defined.

(** *** How many boxes the planner returns *)

Lemma bind_seqZ_cut {B} (n m : Z) (F G : Z → list B) :
  0 ≤ m ≤ n →
  (∀ j, 0 ≤ j < m → F j = G j) →
  (∀ j, m ≤ j < n → F j = []) →
  seqZ 0 n ≫= F = seqZ 0 m ≫= G.
Proof.
  intros Hm HF Hnil. replace n with (m + (n - m)) by lia.
  rewrite seqZ_app by lia. rewrite bind_app.
  rewrite (Forall_bind_ext F G (seqZ 0 m)).
  2:{ apply Forall_forall. intros j Hj%elem_of_seqZ. apply HF. lia. }
  rewrite (Forall_bind_ext F (λ _, []) (seqZ (0 + m) (n - m))).
  2:{ apply Forall_forall. intros j Hj%elem_of_seqZ. apply Hnil. lia. }
  rewrite <- (app_nil_r (seqZ 0 m ≫= G)) at 2. f_equal.
  induction (seqZ (0 + m) (n - m)) as [|? ? IH]; [done|].
  by rewrite bind_cons, IH.
Qed.

Lemma length_bind_const {A B} (f : A → list B) (l : list A) (c : nat) :
  (∀ x, x ∈ l → length (f x) = c) → length (l ≫= f) = (length l * c)%nat.
Proof.
  induction l as [|x l IH]; intros Hc; [done|].
  rewrite bind_cons, length_app, IH, Hc; [cbn; lia|left|].
  intros y Hy. apply Hc. by right.
Qed.

(** The guard keeps the counter over [count_h] below [count_w] and the
    counter over [count_w] below [count_h]: what is left of the
    [count_h × count_w] boxes is the square grid on the smaller count. *)
Lemma full_grid_square (ps : Z) (img : Image) :
  0 < ps →
  full_grid ps img =
    (let m := Z.min ((size img).1 `div` ps) ((size img).2 `div` ps) in
     i ← seqZ 0 m; j ← seqZ 0 m; [patch_box_at ps i j]).
Proof.
  intros Hps. unfold full_grid, tiling.
  pose proof (size_nonneg img) as [Hw Hh]. destruct (size img) as [w h].
  cbn [fst snd] in *.
  pose proof (Z.div_pos w ps Hw Hps). pose proof (Z.div_pos h ps Hh Hps).
  pose proof (Z.mul_div_le w ps Hps). pose proof (Z.mul_div_le h ps Hps).
  pose proof (Z.mul_succ_div_gt w ps Hps). pose proof (Z.mul_succ_div_gt h ps Hps).
  apply bind_seqZ_cut; [lia| |].
  - intros i Hi. apply bind_seqZ_cut; [lia| |].
    + intros j Hj. rewrite bool_decide_eq_true_2; [done|]. split; nia.
    + intros j Hj. rewrite bool_decide_eq_false_2; [done|]. intros [? ?]. nia.
  - intros i Hi. rewrite (bind_seqZ_cut _ 0 _ (λ _, [])); [done|lia|lia|].
    intros j Hj. rewrite bool_decide_eq_false_2; [done|]. intros [? ?]. nia.
Qed.

Lemma full_grid_length (ps : Z) (img : Image) :
  0 < ps →
  Z.of_nat (length (full_grid ps img)) =
    Z.min ((size img).1 `div` ps) ((size img).2 `div` ps) *
    Z.min ((size img).1 `div` ps) ((size img).2 `div` ps).
Proof.
  intros Hps. rewrite full_grid_square by done. cbv zeta.
  set (m := Z.min _ _).
  rewrite (length_bind_const _ _ (Z.to_nat m)).
  2:{ intros i _. rewrite (length_bind_const _ _ 1%nat) by done.
      rewrite length_seqZ. lia. }
  rewrite length_seqZ.
  pose proof (size_nonneg img) as [Hw Hh].
  pose proof (Z.div_pos _ ps Hw Hps). pose proof (Z.div_pos _ ps Hh Hps).
  subst m. nia.
Qed.

(** The number of boxes of a returned grid: the square of the smaller of
    the two counts, capped. *)
Lemma grid_count (ps cap : Z) (img : Image) (g : Rng) :
  0 < ps → 0 ≤ cap →
  ∃ boxes g', get_img_grids ps cap img g = (Ok boxes, g') ∧
    Z.of_nat (length boxes) =
      Z.min (Z.min ((size img).1 `div` ps) ((size img).2 `div` ps) *
             Z.min ((size img).1 `div` ps) ((size img).2 `div` ps)) cap.
Proof.
  intros Hps Hcap.
  destruct (get_img_grids_total ps cap img g) as (boxes & g' & Hg); [lia..|].
  exists boxes, g'. split; [done|].
  apply get_img_grids_Ok in Hg as (_ & _ & ->). by rewrite full_grid_length.
Qed.

(** C2. On an image of 64 by 32 pixels with patches of 32 pixels and a cap
    of 10 the counts are 2 and 1, yet the planner returns one box, not the
    [min (2 * 1) 10 = 2] of the full tiling: the box on the right half of
    the image fails the guard, which holds its width-wise counter against
    the height. *)
Theorem grid_count_on_wide_image (g : Rng) :
  get_img_grids 32 10 (Raster (64, 32)%N RGB "wide.png") g
    = (Ok [(0, 0, 32, 32)], g) ∧
  Z.min ((64 `div` 32) * (32 `div` 32)) 10 = 2.
Proof. split; reflexivity. Qed.

(** ** The degradation engine *)

Lemma choice_total {A} (seq : list A) (g : Rng) :
  seq ≠ [] → ∃ x g', choice seq g = (Ok x, g') ∧ x ∈ seq.
Proof.
  intros Hne. unfold choice.
  destruct (randbelow_lt (length seq) g) as (j & g' & Hr & Hj).
  { destruct seq; [done|cbn; lia]. }
  destruct (lookup_lt_is_Some_2 seq j Hj) as [x Hx].
  exists x, g'. unfold mbind, M_bind. rewrite Hr, Hx.
  split; [done|]. by eapply list_elem_of_lookup_2.
Qed.

(** [shrink_img] picks a filter and hands the truncated quotients to the
    codec: its outcome is the outcome of that one resize. *)
Lemma shrink_img_run (resizable : Z * Z → bool) (self : ImageAugment)
    (hr_img : Image) (g : Rng) :
  shrink_size self ≠ 0 →
  ∃ m g', shrink_img resizable self hr_img g =
            (pil_resize resizable hr_img (shrink_target self hr_img) m, g').
Proof.
  intros Hs. unfold shrink_img, shrink_target.
  destruct (size hr_img) as [w h] eqn:Hsz. cbn [fst snd].
  destruct (down_sample_method self) as [m|].
  - exists m, g. unfold mbind, M_bind, mret, M_ret.
    by rewrite bool_decide_eq_false_2.
  - destruct (choice_total [BILINEAR; BICUBIC; LANCZOS] g) as (m & g' & Hc & _);
      [done|].
    exists m, g'. unfold mbind, M_bind. rewrite Hc.
    by rewrite bool_decide_eq_false_2.
Qed.

Lemma pil_resize_Ok (resizable : Z * Z → bool) (img : Image) (sz : Z * Z)
    (m : Filter) :
  0 ≤ sz.1 → 0 ≤ sz.2 → resizable sz = true →
  pil_resize resizable img sz m = Ok (Resize (Z.to_N sz.1, Z.to_N sz.2) m img) ∧
  size (Resize (Z.to_N sz.1, Z.to_N sz.2) m img) = sz.
Proof.
  intros H1 H2 Hr. unfold pil_resize. rewrite Hr.
  rewrite bool_decide_eq_true_2 by done. split; [done|].
  destruct sz as [a b]. cbn in *. f_equal; lia.
Qed.

Lemma pil_resize_size (resizable : Z * Z → bool) (img lr : Image) (sz : Z * Z)
    (m : Filter) :
  pil_resize resizable img sz m = Ok lr → size lr = sz ∧ lr = Resize (Z.to_N sz.1, Z.to_N sz.2) m img.
Proof.
  unfold pil_resize. destruct (bool_decide _ && _) eqn:Hb; [|discriminate].
  apply andb_prop in Hb as [Hb%bool_decide_eq_true _].
  intros [= <-]. split; [|done]. destruct sz as [a b]. cbn in *. f_equal; lia.
Qed.

Lemma pil_resize_not_KeyError (resizable : Z * Z → bool) (img : Image)
    (sz : Z * Z) (m : Filter) (msg : string) :
  pil_resize resizable img sz m ≠ Raise (KeyError msg).
Proof. unfold pil_resize. by destruct (_ && _). Qed.

(** For a positive factor and a size that is not negative, truncation is
    the floor. *)
Lemma shrink_target_floor (self : ImageAugment) (hr_img : Image) :
  0 < shrink_size self →
  shrink_target self hr_img =
    ((size hr_img).1 `div` shrink_size self, (size hr_img).2 `div` shrink_size self) ∧
  0 ≤ (shrink_target self hr_img).1 ∧ 0 ≤ (shrink_target self hr_img).2.
Proof.
  intros Hs. pose proof (size_nonneg hr_img) as [Hw Hh]. unfold shrink_target.
  rewrite !Z.quot_div_nonneg by lia. cbn [fst snd].
  split; [done|]. split; apply Z.div_pos; lia.
Qed.

(** C3 fails as stated: an image of 5 by 5 pixels halved is 2 by 2, and
    upsampled by the same factor it is 4 by 4, not 5 by 5. *)
Lemma upsample_after_shrink_5x5 :
  ∃ lr up,
    shrink_img one_pixel_or_more halving (Raster (5, 5)%N RGB "odd.png") []
      = (Ok lr, []) ∧
    size lr = (2, 2) ∧
    up_sample one_pixel_or_more halving lr BILINEAR = Ok up ∧
    size up = (4, 4) ∧
    size up ≠ size (Raster (5, 5)%N RGB "odd.png").
Proof. do 2 eexists. split_and!; [reflexivity..|]. by vm_compute. Qed.

(** C3, amended. For a positive factor [s] and a codec that carries out the
    two resizes, [up_sample] after [shrink_img] yields the size
    [(s * (w div s), s * (h div s))]: per axis the largest multiple of [s]
    not above the original dimension.  It is the original size exactly
    when [s] divides both [w] and [h]. *)
Theorem upsample_after_shrink_size (resizable : Z * Z → bool)
    (self : ImageAugment) (hr_img : Image) (resample : Filter) (g : Rng) :
  let s := shrink_size self in
  let w := (size hr_img).1 in
  let h := (size hr_img).2 in
  0 < s →
  resizable (w `div` s, h `div` s) = true →
  resizable (s * (w `div` s), s * (h `div` s)) = true →
  ∃ lr g' up,
    shrink_img resizable self hr_img g = (Ok lr, g') ∧
    size lr = (w `div` s, h `div` s) ∧
    up_sample resizable self lr resample = Ok up ∧
    size up = (s * (w `div` s), s * (h `div` s)) ∧
    (w - s < (size up).1 ≤ w ∧ h - s < (size up).2 ≤ h) ∧
    (size up = size hr_img ↔ w `mod` s = 0 ∧ h `mod` s = 0).
Proof.
  intros s w h Hs Hr1 Hr2.
  destruct (shrink_img_run resizable self hr_img g) as (m & g' & Hrun);
    [fold s; lia|].
  destruct (shrink_target_floor self hr_img Hs) as (Ht & Ht1 & Ht2).
  fold s w h in Ht. rewrite Ht in Hrun, Ht1, Ht2. cbn [fst snd] in Ht1, Ht2.
  destruct (pil_resize_Ok resizable hr_img (w `div` s, h `div` s) m)
    as [Hlr Hsz]; [done..|].
  rewrite Hlr in Hrun. cbn [fst snd] in *.
  set (lr := Resize _ m hr_img) in *.
  destruct (pil_resize_Ok resizable lr (s * (w `div` s), s * (h `div` s)) resample)
    as [Hup Hsz']; [cbn; nia..|done|].
  cbn [fst snd] in *. set (up := Resize _ resample lr) in *.
  pose proof (Z.mod_pos_bound w s Hs). pose proof (Z.div_mod w s).
  pose proof (Z.mod_pos_bound h s Hs). pose proof (Z.div_mod h s).
  exists lr, g', up. split; [done|]. split; [done|]. split.
  { unfold up_sample. rewrite Hsz. apply Hup. }
  split; [done|]. rewrite Hsz'. cbn [fst snd]. split; [lia|].
  destruct (size hr_img) as [w0 h0] eqn:E. subst w h. cbn [fst snd] in *.
  split.
  - intros [= E1 E2]. lia.
  - intros [E1 E2]. f_equal; lia.
Qed.

Lemma upsample_after_shrink_size_witness :
  0 < 2 ∧
  ∃ lr g' up,
    shrink_img one_pixel_or_more halving (Raster (6, 5)%N RGB "a.png") [] = (Ok lr, g') ∧
    size lr = (3, 2) ∧
    up_sample one_pixel_or_more halving lr BILINEAR = Ok up ∧
    size up = (6, 4) ∧
    (6 - 2 < (size up).1 ≤ 6 ∧ 5 - 2 < (size up).2 ≤ 5) ∧
    (size up = (6, 5) ↔ 6 `mod` 2 = 0 ∧ 5 `mod` 2 = 0).
Proof.
  split; [lia|].
  apply (upsample_after_shrink_size one_pixel_or_more halving
           (Raster (6, 5)%N RGB "a.png") BILINEAR []); [cbn; lia|reflexivity..].
Defined.

(** A codec that refuses sizes below one pixel carries out the resize to
    the floors exactly when no side of the patch is below the shrink size. *)
Lemma one_pixel_or_more_floor (w h s : Z) :
  0 < s →
  one_pixel_or_more (w `div` s, h `div` s) = true ↔ s ≤ w ∧ s ≤ h.
Proof.
  intros Hs. unfold one_pixel_or_more. cbn [fst snd].
  rewrite andb_true_iff, !bool_decide_eq_true.
  pose proof (Z.div_le_lower_bound w s 1). pose proof (Z.div_le_lower_bound h s 1).
  pose proof (Z.div_lt_upper_bound w s 1). pose proof (Z.div_lt_upper_bound h s 1).
  split; intros [? ?]; split; lia.
Qed.

(** C6 fails as stated: on a patch of 1 by 8 pixels with a shrink size of 2
    and noise level 0 the target is 0 by 4, and with a codec that refuses
    sizes below one pixel [process] raises [ValueError] instead of
    returning a low-resolution image. *)
Lemma process_without_noise_thin_patch :
  ImageAugment_init 2 0 (Some BICUBIC) = Ok halving ∧
  size (Crop (0, 0, 1, 8) (Raster (64, 64)%N RGB "a.png")) = (1, 8) ∧
  process one_pixel_or_more halving (Raster (64, 64)%N RGB "a.png")
    (0, 0, 1, 8) []
    = (Raise (ValueError "height and width must be > 0"), []).
Proof. split_and!; reflexivity. Qed.

(** C6, amended. An augmenter built with noise level 0, on a patch cut out
    by a grid box, whenever the codec carries out the resize of the patch
    to the floors of its dimensions over the shrink size (a codec that
    refuses sizes below one pixel does when no side of the patch is below
    the shrink size): it returns the patch and a low-resolution image of
    those floor dimensions; the low-resolution image is the resize of the
    patch itself and has gone through no re-encoding that the patch has
    not: the noise branch is not taken. *)
Theorem process_without_noise (resizable : Z * Z → bool) (s : Z)
    (method : option Filter) (self : ImageAugment) (hr_patch : Image)
    (grid : Box) (g : Rng) :
  let w := (size (Crop grid hr_patch)).1 in
  let h := (size (Crop grid hr_patch)).2 in
  ImageAugment_init s 0 method = Ok self →
  0 < s →
  resizable (w `div` s, h `div` s) = true →
  ∃ lr g',
    process resizable self hr_patch grid g = (Ok (lr, Crop grid hr_patch), g') ∧
    size lr = (w `div` s, h `div` s) ∧
    (∃ m, lr = Resize (Z.to_N (w `div` s), Z.to_N (h `div` s)) m (Crop grid hr_patch)) ∧
    jpeg_steps lr = jpeg_steps hr_patch.
Proof.
  intros w h Hinit Hs Hr. injection Hinit as <-.
  set (self := {| noise_level := (0, 0); shrink_size := s;
                  down_sample_method := method |}).
  destruct (shrink_img_run resizable self (Crop grid hr_patch) g) as (m & g' & Hrun);
    [cbn; lia|].
  destruct (shrink_target_floor self (Crop grid hr_patch) Hs) as (Ht & Ht1 & Ht2).
  rewrite Ht in Hrun, Ht1, Ht2. change (shrink_size self) with s in *.
  fold w h in Hrun, Ht1, Ht2. cbn [fst snd] in Ht1, Ht2.
  destruct (pil_resize_Ok resizable (Crop grid hr_patch) (w `div` s, h `div` s) m)
    as [Hlr Hsz]; [done..|].
  rewrite Hlr in Hrun. cbn [fst snd] in *.
  eexists _, g'. split_and!.
  - unfold process. unfold mbind at 1, M_bind at 1. rewrite Hrun.
    reflexivity.
  - done.
  - by exists m.
  - done.
Qed.

Lemma process_without_noise_witness :
  ImageAugment_init 2 0 None
    = Ok {| noise_level := (0, 0); shrink_size := 2; down_sample_method := None |} ∧
  0 < 2 ∧
  ∃ lr g',
    process one_pixel_or_more
      {| noise_level := (0, 0); shrink_size := 2; down_sample_method := None |}
      (Raster (64, 64)%N RGB "a.png") (0, 32, 32, 64) [4]%nat
      = (Ok (lr, Crop (0, 32, 32, 64) (Raster (64, 64)%N RGB "a.png")), g') ∧
    size lr = (32 `div` 2, 32 `div` 2) ∧
    (∃ m, lr = Resize (Z.to_N (32 `div` 2), Z.to_N (32 `div` 2)) m
                 (Crop (0, 32, 32, 64) (Raster (64, 64)%N RGB "a.png"))) ∧
    jpeg_steps lr = jpeg_steps (Raster (64, 64)%N RGB "a.png").
Proof.
  split; [reflexivity|]. split; [lia|].
  apply (process_without_noise one_pixel_or_more 2 None _
           (Raster (64, 64)%N RGB "a.png") (0, 32, 32, 64) [4]%nat);
    [reflexivity|lia|reflexivity].
Defined.

(** With noise level 1 or 2 the branch is taken: the low-resolution image
    is one re-encoding further than the patch. *)
Lemma process_with_noise (resizable : Z * Z → bool) (self : ImageAugment)
    (hr_patch : Image) (grid : Box) (g g' : Rng) (lr hr : Image) :
  (noise_level self).2 > 0 →
  process resizable self hr_patch grid g = (Ok (lr, hr), g') →
  jpeg_steps lr = S (jpeg_steps hr_patch) ∧ hr = Crop grid hr_patch.
Proof.
  intros Hn. unfold process, mbind, M_bind.
  destruct (shrink_img _ _ _ _) as [[lr0|e] g0] eqn:Hs; [|discriminate].
  rewrite bool_decide_eq_true_2 by done.
  unfold add_jpeg_noise, round_uniform, mbind, M_bind, mret, M_ret, next_draw.
  assert (jpeg_steps lr0 = jpeg_steps hr_patch) as Hj.
  { unfold shrink_img, mbind, M_bind in Hs.
    destruct (match down_sample_method self with _ => _ end g) as [[m|?] ?];
      [|discriminate].
    case_bool_decide; [discriminate|]. destruct (size _) as [w h].
    unfold lift in Hs. injection Hs as Hs _.
    by apply pil_resize_size in Hs as [_ ->]. }
  destruct g0; intros [= <- <- _]; cbn; by rewrite Hj.
Qed.

(** C10. On a patch with a side below the (positive) shrink size,
    [shrink_img] asks the codec for a resize whose target is 0 on that
    axis: the request goes out as computed, no side is raised to one pixel,
    and the outcome is never a configuration error; a codec that carries
    the request out returns an image with that side 0. *)
Theorem shrink_img_below_shrink_size (resizable : Z * Z → bool)
    (self : ImageAugment) (hr_img : Image) (g : Rng) :
  let s := shrink_size self in
  let w := (size hr_img).1 in
  let h := (size hr_img).2 in
  0 < s → w < s ∨ h < s →
  ∃ m g',
    shrink_img resizable self hr_img g
      = (pil_resize resizable hr_img (w `quot` s, h `quot` s) m, g') ∧
    (w < s → w `quot` s = 0) ∧
    (h < s → h `quot` s = 0) ∧
    (∀ msg, pil_resize resizable hr_img (w `quot` s, h `quot` s) m
              ≠ Raise (KeyError msg)) ∧
    (resizable (w `quot` s, h `quot` s) = true →
     ∃ lr, pil_resize resizable hr_img (w `quot` s, h `quot` s) m = Ok lr ∧
           size lr = (w `quot` s, h `quot` s)).
Proof.
  intros s w h Hs Hsmall.
  destruct (shrink_img_run resizable self hr_img g) as (m & g' & Hrun);
    [fold s; lia|].
  pose proof (size_nonneg hr_img) as [Hw Hh]. fold w h in Hw, Hh.
  exists m, g'. split_and!.
  - exact Hrun.
  - intros Hlt. apply Z.quot_small. lia.
  - intros Hlt. apply Z.quot_small. lia.
  - intros msg. apply pil_resize_not_KeyError.
  - intros Hr. eexists. apply pil_resize_Ok; [| |done]; cbn [fst snd].
    + apply Z.quot_pos; lia.
    + apply Z.quot_pos; lia.
Qed.

Lemma shrink_img_below_shrink_size_witness :
  0 < 2 ∧ (1 < 2 ∨ 8 < 2) ∧
  ∃ m g',
    shrink_img any_size halving (Raster (1, 8)%N RGB "thin.png") []
      = (pil_resize any_size (Raster (1, 8)%N RGB "thin.png")
           (1 `quot` 2, 8 `quot` 2) m, g') ∧
    (1 < 2 → 1 `quot` 2 = 0) ∧
    (8 < 2 → 8 `quot` 2 = 0) ∧
    (∀ msg, pil_resize any_size (Raster (1, 8)%N RGB "thin.png")
              (1 `quot` 2, 8 `quot` 2) m ≠ Raise (KeyError msg)) ∧
    (any_size (1 `quot` 2, 8 `quot` 2) = true →
     ∃ lr, pil_resize any_size (Raster (1, 8)%N RGB "thin.png")
             (1 `quot` 2, 8 `quot` 2) m = Ok lr ∧
           size lr = (1 `quot` 2, 8 `quot` 2)).
Proof.
  split; [lia|]. split; [left; lia|].
  apply (shrink_img_below_shrink_size any_size halving
           (Raster (1, 8)%N RGB "thin.png") []); [cbn; lia|left; cbn; lia].
Defined.

(** C8. Building an augmenter maps noise level 0 to the range [(0, 0)], 1
    to [(5, 25)] and 2 to [(25, 50)]; it raises exactly when the level is
    none of the three, and what it raises is the configuration error.  The
    data set builds its augmenter first: with such a level its construction
    raises that error whatever the folder holds, without a single draw of
    the generator, hence before any patch is processed. *)
Theorem noise_level_policy (s : Z) (method : option Filter) :
  ImageAugment_init s 0 method
    = Ok {| noise_level := (0, 0); shrink_size := s; down_sample_method := method |} ∧
  ImageAugment_init s 1 method
    = Ok {| noise_level := (5, 25); shrink_size := s; down_sample_method := method |} ∧
  ImageAugment_init s 2 method
    = Ok {| noise_level := (25, 50); shrink_size := s; down_sample_method := method |} ∧
  (∀ level,
     (∃ e, ImageAugment_init s level method = Raise e) ↔
     level ≠ 0 ∧ level ≠ 1 ∧ level ≠ 2) ∧
  (∀ level,
     level ≠ 0 ∧ level ≠ 1 ∧ level ≠ 2 →
     ∃ msg,
       ImageAugment_init s level method = Raise (KeyError msg) ∧
       ∀ resizable folder cap ps color g,
         ImageData_init resizable folder cap ps s level method color g
           = (Raise (KeyError msg), g)).
Proof.
  split_and!; [reflexivity..| |].
  - intros level. unfold ImageAugment_init. split.
    + intros [e He]. repeat case_bool_decide; subst; try discriminate. done.
    + intros (H0 & H1 & H2). rewrite !bool_decide_eq_false_2 by done. by eexists.
  - intros level (H0 & H1 & H2). eexists. split.
    + unfold ImageAugment_init. rewrite !bool_decide_eq_false_2 by done.
      reflexivity.
    + intros. unfold ImageData_init, ImageAugment_init, mbind, M_bind, lift.
      rewrite !bool_decide_eq_false_2 by done. reflexivity.
Qed.

(** ** Fetching a pair *)

Lemma list_getitem_in_range {A} (l : list A) (index : Z) :
  0 ≤ index < Z.of_nat (length l) →
  ∃ x, l !! Z.to_nat index = Some x ∧ list_getitem l index = Ok x.
Proof.
  intros Hi. destruct (lookup_lt_is_Some_2 l (Z.to_nat index)) as [x Hx]; [lia|].
  exists x. split; [done|]. unfold list_getitem.
  rewrite (bool_decide_eq_false_2 (index < 0)) by lia. cbv zeta iota.
  rewrite bool_decide_eq_true_2 by lia. by rewrite Hx.
Qed.

Lemma list_getitem_from_end {A} (l : list A) (index : Z) :
  - Z.of_nat (length l) ≤ index < 0 →
  list_getitem l index = list_getitem l (index + Z.of_nat (length l)).
Proof.
  intros Hi. unfold list_getitem.
  rewrite (bool_decide_eq_true_2 (index < 0)) by lia.
  by rewrite (bool_decide_eq_false_2 (index + Z.of_nat (length l) < 0)) by lia.
Qed.

Lemma list_getitem_outside {A} (l : list A) (index : Z) :
  ¬ (- Z.of_nat (length l) ≤ index < Z.of_nat (length l)) →
  list_getitem l index = Raise IndexError.
Proof.
  intros Hi. unfold list_getitem. destruct (decide (index < 0)) as [Hneg|Hneg].
  - rewrite (bool_decide_eq_true_2 (index < 0)) by done.
    by rewrite bool_decide_eq_false_2 by lia.
  - rewrite (bool_decide_eq_false_2 (index < 0)) by done.
    rewrite bool_decide_eq_true_2 by lia.
    by rewrite lookup_ge_None_2 by lia.
Qed.



(** C5. At an index in range, colour mode YCbCr returns the first band, the
    luminance, of each member converted to YCbCr, two single-channel
    images; colour mode RGB returns both members as three-channel images;
    any other colour mode raises the configuration error. *)
Theorem getitem_color_mod (self : ImageData) (index : Z) :
  0 ≤ index < len self →
  ∃ patch,
    patch_grids self !! Z.to_nat index = Some patch ∧
    (color_mod self = "YCbCr" →
     ∃ lr hr, getitem self index = Ok (lr, hr) ∧
              lr = Band 0 (Convert YCbCr patch.1) ∧
              hr = Band 0 (Convert YCbCr patch.2) ∧
              channels lr = 1%nat ∧ channels hr = 1%nat) ∧
    (color_mod self = "RGB" →
     ∃ lr hr, getitem self index = Ok (lr, hr) ∧
              lr = Convert RGB patch.1 ∧ hr = Convert RGB patch.2 ∧
              channels lr = 3%nat ∧ channels hr = 3%nat) ∧
    (color_mod self ≠ "RGB" → color_mod self ≠ "YCbCr" →
     ∃ msg, getitem self index = Raise (KeyError msg)).
Proof.
  intros Hi. destruct (list_getitem_in_range (patch_grids self) index Hi)
    as (patch & Hlook & Hget).
  exists patch. split; [done|]. unfold getitem. rewrite Hget.
  unfold mbind, result_bind. split_and!.
  - intros ->. cbn. by eexists _, _.
  - intros ->. cbn. by eexists _, _.
  - intros Hrgb Hycc.
    apply String.eqb_neq in Hrgb, Hycc. rewrite Hrgb, Hycc. by eexists.
Qed.

Lemma getitem_color_mod_witness :
  0 ≤ 1 < len (corpus_in "YCbCr") ∧
  ∃ patch,
    patch_grids (corpus_in "YCbCr") !! Z.to_nat 1 = Some patch ∧
    (color_mod (corpus_in "YCbCr") = "YCbCr" →
     ∃ lr hr, getitem (corpus_in "YCbCr") 1 = Ok (lr, hr) ∧
              lr = Band 0 (Convert YCbCr patch.1) ∧
              hr = Band 0 (Convert YCbCr patch.2) ∧
              channels lr = 1%nat ∧ channels hr = 1%nat) ∧
    (color_mod (corpus_in "YCbCr") = "RGB" →
     ∃ lr hr, getitem (corpus_in "YCbCr") 1 = Ok (lr, hr) ∧
              lr = Convert RGB patch.1 ∧ hr = Convert RGB patch.2 ∧
              channels lr = 3%nat ∧ channels hr = 3%nat) ∧
    (color_mod (corpus_in "YCbCr") ≠ "RGB" →
     color_mod (corpus_in "YCbCr") ≠ "YCbCr" →
     ∃ msg, getitem (corpus_in "YCbCr") 1 = Raise (KeyError msg)).
Proof.
  split; [unfold len; simpl; lia|].
  apply (getitem_color_mod (corpus_in "YCbCr") 1). unfold len; simpl; lia.
Defined.

(** ** Collating a batch *)

Lemma to_tensor_shape (pic : Image) :
  shape (to_tensor pic) =
    [Z.of_nat (channels pic); (size pic).2; (size pic).1].
Proof. unfold to_tensor. by destruct (size pic). Qed.

Lemma stack_Ok (tensors : list Tensor) (t : Tensor) :
  stack tensors = Ok t →
  ∃ t0 rest, tensors = t0 :: rest ∧
             shape t = Z.of_nat (length tensors) :: shape t0 ∧
             device t = device t0.
Proof.
  destruct tensors as [|t0 rest]; [discriminate|]. unfold stack.
  destruct (forallb _ rest); [|discriminate]. intros [= <-]. by exists t0, rest.
Qed.

(** A batch that is not empty and whose tensors agree in shape stacks. *)
Lemma stack_total (t0 : Tensor) (rest : list Tensor) :
  Forall (λ t', shape t' = shape t0) rest → ∃ t, stack (t0 :: rest) = Ok t.
Proof.
  intros Hall. unfold stack.
  assert (forallb (λ t', bool_decide (shape t' = shape t0)) rest = true) as ->.
  { apply forallb_forall. intros t' Hin%list_elem_of_In.
    apply bool_decide_eq_true_2. by eapply (proj1 (Forall_forall _ _) Hall). }
  by eexists.
Qed.

Lemma ZeroPad2d_Ok (pad : Z) (t : Tensor) (n c h w : Z) :
  shape t = [n; c; h; w] → 0 ≤ h + 2 * pad → 0 ≤ w + 2 * pad →
  ∃ t', ZeroPad2d pad t = Ok t' ∧
        shape t' = [n; c; h + 2 * pad; w + 2 * pad] ∧
        device t' = device t.
Proof.
  intros Hsh Hh Hw. unfold ZeroPad2d. rewrite Hsh.
  rewrite bool_decide_eq_true_2 by done. by eexists.
Qed.

Lemma shape_on_device (use_cuda : bool) (t : Tensor) :
  shape (on_device use_cuda t) = shape t.
Proof. by destruct use_cuda. Qed.

(** The stacked low-resolution batch is four-dimensional, with spatial
    dimensions that are not negative. *)
Lemma stack_low_shape (batch : list (Image * Image)) (t : Tensor) :
  stack ((λ i, to_tensor i.1) <$> batch) = Ok t →
  ∃ n c h w, shape t = [n; c; h; w] ∧ 0 ≤ h ∧ 0 ≤ w.
Proof.
  intros (t0 & rest & Heq & Hsh & _)%stack_Ok.
  destruct batch as [|pair batch]; [discriminate|]. injection Heq as <- _.
  rewrite to_tensor_shape in Hsh. pose proof (size_nonneg pair.1) as [? ?].
  by eexists _, _, _, _.
Qed.

Lemma lookup_bind_seqZ {B} (f : Z → list B) (L n i r : Z) :
  (∀ j, 0 ≤ j < n → Z.of_nat (length (f j)) = L) →
  0 ≤ i < n → 0 ≤ r < L →
  (seqZ 0 n ≫= f) !! Z.to_nat (i * L + r) = f i !! Z.to_nat r.
Proof.
  intros Hlen Hi Hr. replace n with (i + (n - i)) by lia.
  rewrite seqZ_app by lia. rewrite bind_app.
  assert (length (seqZ 0 i ≫= f) = (Z.to_nat i * Z.to_nat L)%nat) as Hpre.
  { rewrite (length_bind_const _ _ (Z.to_nat L)).
    - by rewrite length_seqZ.
    - intros j Hj%elem_of_seqZ. rewrite <- (Hlen j) by lia. lia. }
  assert (Z.to_nat (i * L + r) = (Z.to_nat i * Z.to_nat L + Z.to_nat r)%nat) as ->.
  { rewrite Z2Nat.inj_add, Z2Nat.inj_mul by nia. done. }
  rewrite lookup_app_r by lia. rewrite Hpre.
  replace (Z.to_nat i * Z.to_nat L + Z.to_nat r - Z.to_nat i * Z.to_nat L)%nat
    with (Z.to_nat r) by lia.
  rewrite seqZ_cons by lia. rewrite bind_cons. rewrite lookup_app_l.
  - by rewrite Z.add_0_l.
  - rewrite Z.add_0_l. specialize (Hlen i). lia.
Qed.

Lemma length_bind_seqZ {B} (f : Z → list B) (L n : Z) :
  0 ≤ n →
  (∀ j, 0 ≤ j < n → Z.of_nat (length (f j)) = L) →
  Z.of_nat (length (seqZ 0 n ≫= f)) = n * L.
Proof.
  intros Hn Hlen. destruct (decide (n = 0)) as [->|Hne]; [done|].
  assert (0 ≤ L) by (rewrite <- (Hlen 0) by lia; lia).
  rewrite (length_bind_const _ _ (Z.to_nat L)).
  - rewrite length_seqZ. nia.
  - intros j Hj%elem_of_seqZ. rewrite <- (Hlen j) by lia. lia.
Qed.

(** Reading a batch that four nested loops wrote entry by entry. *)
Lemma lookup_nested_loops {B} (n c h w : Z) (e : Z → Z → Z → Z → B) (b k y x : Z) :
  0 ≤ b < n → 0 ≤ k < c → 0 ≤ y < h → 0 ≤ x < w →
  (b' ← seqZ 0 n; k' ← seqZ 0 c; y' ← seqZ 0 h; x' ← seqZ 0 w; [e b' k' y' x'])
    !! Z.to_nat (((b * c + k) * h + y) * w + x) = Some (e b k y x).
Proof.
  intros Hb Hk Hy Hx.
  assert (∀ b' k' y',
    Z.of_nat (length (seqZ 0 w ≫= λ x', [e b' k' y' x'])) = w * 1) as L3.
  { intros. apply length_bind_seqZ; [lia|done]. }
  assert (∀ b' k',
    Z.of_nat (length (seqZ 0 h ≫= λ y', seqZ 0 w ≫= λ x', [e b' k' y' x']))
    = h * (w * 1)) as L2.
  { intros. apply length_bind_seqZ; [lia|]. intros. apply L3. }
  assert (∀ b',
    Z.of_nat (length (seqZ 0 c ≫= λ k', seqZ 0 h ≫= λ y',
                      seqZ 0 w ≫= λ x', [e b' k' y' x']))
    = c * (h * (w * 1))) as L1.
  { intros. apply length_bind_seqZ; [lia|]. intros. apply L2. }
  set (r3 := x * 1 + 0). set (L3' := w * 1) in *.
  set (r2 := y * L3' + r3). set (L2' := h * L3') in *.
  set (r1 := k * L2' + r2). set (L1' := c * L2') in *.
  assert (0 ≤ r3 < L3') by (subst r3 L3'; lia).
  assert (0 ≤ r2 < L2') by (subst r2 L2'; nia).
  assert (0 ≤ r1 < L1') by (subst r1 L1'; nia).
  replace (((b * c + k) * h + y) * w + x) with (b * L1' + r1)
    by (subst r1 L1' r2 L2' r3 L3'; lia).
  rewrite (lookup_bind_seqZ _ L1' n b); [|by intros|lia|lia].
  subst r1. rewrite (lookup_bind_seqZ _ L2' c k); [|by intros|lia|lia].
  subst r2. rewrite (lookup_bind_seqZ _ L3' h y); [|by intros|lia|lia].
  subst r3. rewrite (lookup_bind_seqZ _ 1 w x); [done|done|lia|lia].
Qed.

(** What the padded batch holds: zeros on a frame of width [pad], and
    inside it the batch as it was, shifted by [pad] rows and columns. *)
Lemma ZeroPad2d_entry (pad : Z) (t t' : Tensor) (n c h w b k y x : Z) :
  shape t = [n; c; h; w] → ZeroPad2d pad t = Ok t' →
  0 ≤ b < n → 0 ≤ k < c → 0 ≤ y < h + 2 * pad → 0 ≤ x < w + 2 * pad →
  entry t' b k y x =
    if bool_decide (pad ≤ y < pad + h ∧ pad ≤ x < pad + w)
    then entry t b k (y - pad) (x - pad)
    else Zero.
Proof.
  intros Hsh Hpad Hb Hk Hy Hx. unfold ZeroPad2d in Hpad. rewrite Hsh in Hpad.
  case_bool_decide; [|discriminate]. injection Hpad as <-.
  unfold entry at 1. cbn [shape data].
  rewrite lookup_nested_loops by done. cbn [default from_option].
  case_bool_decide; [|done]. unfold entry. by rewrite Hsh.
Qed.

Lemma entry_on_device (use_cuda : bool) (t : Tensor) (b k y x : Z) :
  entry (on_device use_cuda t) b k y x = entry t b k y x.
Proof. by destruct use_cuda. Qed.

(** C7. Whenever a batch collates without padding, it collates with any
    padding [p > 0]; the low-resolution batch tensor then has the same
    batch and channel dimensions and both spatial dimensions larger by
    exactly [2 * p], holding zeros on a frame of width [p] around the
    entries of the unpadded tensor; the high-resolution batch tensor is the
    very same, and so is the guide batch when there is one. *)
Theorem batch_collector_padding (resizable : Z * Z → bool) (use_cuda : bool)
    (ds : ImageData) (up : option Filter) (p : Z)
    (batch : list (Image * Image)) (low0 : LowBatch) (hr0 : Tensor) :
  0 < p →
  batch_collector resizable use_cuda (loader ds up 0) batch = Ok (low0, hr0) →
  ∃ low n c h w,
    batch_collector resizable use_cuda (loader ds up p) batch = Ok (low, hr0) ∧
    shape (low_tensor low0) = [n; c; h; w] ∧
    shape (low_tensor low) = [n; c; h + 2 * p; w + 2 * p] ∧
    guide low = guide low0 ∧
    ∀ b k y x,
      0 ≤ b < n → 0 ≤ k < c → 0 ≤ y < h + 2 * p → 0 ≤ x < w + 2 * p →
      entry (low_tensor low) b k y x =
        if bool_decide (p ≤ y < p + h ∧ p ≤ x < p + w)
        then entry (low_tensor low0) b k (y - p) (x - p)
        else Zero.
Proof.
  intros Hp. unfold batch_collector, loader. cbn [pad_img dataset loader_up_sample].
  rewrite (bool_decide_eq_false_2 (0 ≠ 0)) by naive_solver.
  rewrite (bool_decide_eq_true_2 (p ≠ 0)) by lia.
  unfold mbind, result_bind, mret, result_ret.
  destruct (stack ((λ i, to_tensor i.1) <$> batch)) as [lr|e] eqn:Hlr;
    [|discriminate].
  destruct (stack_low_shape batch lr Hlr) as (n & c & h & w & Hsh & Hh & Hw).
  destruct (ZeroPad2d_Ok p lr n c h w Hsh) as (lr' & Hpad & Hsh' & _); [lia..|].
  destruct (stack ((λ i, to_tensor i.2) <$> batch)) as [hr|e] eqn:Hhr;
    [|discriminate].
  rewrite Hpad.
  destruct up as [resample|].
  - destruct (mapM _ batch) as [ups|e]; [|discriminate].
    destruct (stack (to_tensor <$> ups)) as [lr_up|e]; [|discriminate].
    intros [= <- <-]. eexists _, n, c, h, w. split; [reflexivity|].
    cbn [low_tensor guide]. rewrite !shape_on_device. split_and!; [done..|].
    intros. rewrite !entry_on_device. by eapply ZeroPad2d_entry.
  - intros [= <- <-]. eexists _, n, c, h, w. split; [reflexivity|].
    cbn [low_tensor guide]. rewrite !shape_on_device. split_and!; [done..|].
    intros. rewrite !entry_on_device. by eapply ZeroPad2d_entry.
Qed.

Lemma batch_collector_padding_witness :
  ∃ low0 hr0,
    0 < 1 ∧
    batch_collector one_pixel_or_more false
      (loader (corpus_in "RGB") (Some BILINEAR) 0) two_pairs = Ok (low0, hr0) ∧
    ∃ low n c h w,
      batch_collector one_pixel_or_more false
        (loader (corpus_in "RGB") (Some BILINEAR) 1) two_pairs = Ok (low, hr0) ∧
      shape (low_tensor low0) = [n; c; h; w] ∧
      shape (low_tensor low) = [n; c; h + 2 * 1; w + 2 * 1] ∧
      guide low = guide low0 ∧
      ∀ b k y x,
        0 ≤ b < n → 0 ≤ k < c → 0 ≤ y < h + 2 * 1 → 0 ≤ x < w + 2 * 1 →
        entry (low_tensor low) b k y x =
          if bool_decide (1 ≤ y < 1 + h ∧ 1 ≤ x < 1 + w)
          then entry (low_tensor low0) b k (y - 1) (x - 1)
          else Zero.
Proof.
  eexists _, _. split; [lia|]. split; [vm_compute; reflexivity|].
  apply (batch_collector_padding one_pixel_or_more false (corpus_in "RGB")
           (Some BILINEAR) 1 two_pairs); [lia|vm_compute; reflexivity].
Defined.

Lemma up_sample_unfold (resizable : Z * Z → bool) (self : ImageAugment)
    (img : Image) (resample : Filter) :
  up_sample resizable self img resample =
    pil_resize resizable img
      (shrink_size self * (size img).1, shrink_size self * (size img).2) resample.
Proof. unfold up_sample. by destruct (size img). Qed.

(** The upsampled guides of a batch, when the codec carries out every one
    of the resizes. *)
Lemma mapM_up_sample_total (resizable : Z * Z → bool) (self : ImageAugment)
    (resample : Filter) (batch : list (Image * Image)) :
  0 ≤ shrink_size self →
  Forall (λ i, resizable (shrink_size self * (size i.1).1,
                          shrink_size self * (size i.1).2) = true) batch →
  ∃ ups, mapM (λ i, up_sample resizable self i.1 resample) batch = Ok ups ∧
         Forall2 (λ i up, size up = (shrink_size self * (size i.1).1,
                                     shrink_size self * (size i.1).2) ∧
                          mode up = mode i.1) batch ups.
Proof.
  intros Hs. induction 1 as [|pair batch Hr _ (ups & IH & Hall)].
  - by exists [].
  - pose proof (size_nonneg pair.1) as [Hw Hh].
    destruct (pil_resize_Ok resizable pair.1
                (shrink_size self * (size pair.1).1,
                 shrink_size self * (size pair.1).2) resample)
      as [Hup Hsz]; [cbn; nia..|done|].
    eexists (_ :: ups). split.
    + cbn [mapM]. rewrite up_sample_unfold, Hup.
      unfold mbind at 1, result_bind at 1.
      change (fix go (l : list (Image * Image)) : result (list Image) := _)
        with (mapM (λ i : Image * Image, up_sample resizable self i.1 resample)).
      rewrite IH. reflexivity.
    + constructor; [|done]. by split.
Qed.

Lemma to_tensor_shape_eq (a b : Image) :
  size a = size b → mode a = mode b → shape (to_tensor a) = shape (to_tensor b).
Proof. intros Hs Hm. rewrite !to_tensor_shape. unfold channels. by rewrite Hs, Hm. Qed.

(** A batch that is not empty and whose pairs agree in size and mode
    collates, for every padding that is not negative; with a guide, the
    codec has to carry out the upsampling of every low-resolution member. *)
Lemma batch_collector_total (resizable : Z * Z → bool) (use_cuda : bool)
    (ds : ImageData) (up : option Filter) (pad : Z)
    (pair : Image * Image) (rest : list (Image * Image)) :
  let s := shrink_size (img_augmenter ds) in
  0 ≤ pad →
  Forall (λ i, (size i.1 = size pair.1 ∧ mode i.1 = mode pair.1) ∧
               (size i.2 = size pair.2 ∧ mode i.2 = mode pair.2)) rest →
  (is_Some up →
   0 ≤ s ∧
   Forall (λ i, resizable (s * (size i.1).1, s * (size i.1).2) = true)
     (pair :: rest)) →
  ∃ out, batch_collector resizable use_cuda (loader ds up pad) (pair :: rest) = Ok out.
Proof.
  intros s Hpad Hall Hup. unfold batch_collector, loader.
  cbn [pad_img dataset loader_up_sample]. fold s.
  destruct (stack_total (to_tensor pair.1) ((λ i, to_tensor i.1) <$> rest))
    as [lr Hlr].
  { apply Forall_fmap. eapply Forall_impl; [exact Hall|].
    intros i [[? ?] _]. by apply to_tensor_shape_eq. }
  destruct (stack_total (to_tensor pair.2) ((λ i, to_tensor i.2) <$> rest))
    as [hr Hhr].
  { apply Forall_fmap. eapply Forall_impl; [exact Hall|].
    intros i [_ [? ?]]. by apply to_tensor_shape_eq. }
  rewrite !fmap_cons. rewrite Hlr, Hhr. unfold mbind at 1 2, result_bind at 1 2.
  assert (∃ lr', (if bool_decide (pad ≠ 0) then ZeroPad2d pad lr else mret lr)
                 = Ok lr') as [lr' ->].
  { case_bool_decide; [|by eexists].
    destruct (stack_low_shape (pair :: rest) lr Hlr) as (n & c & h & w & Hsh & ? & ?).
    destruct (ZeroPad2d_Ok pad lr n c h w Hsh) as (lr' & -> & _); [lia..|].
    by eexists. }
  unfold mbind at 1, result_bind at 1.
  destruct up as [resample|]; [|by eexists].
  destruct Hup as [Hs Hres]; [done|].
  destruct (mapM_up_sample_total resizable (img_augmenter ds) resample
              (pair :: rest) Hs Hres) as (ups & -> & Hups).
  unfold mbind at 1, result_bind at 1.
  apply Forall2_cons_inv_l in Hups as (u0 & urest & [Hsz0 Hm0] & Hups & ->).
  destruct (stack_total (to_tensor u0) (to_tensor <$> urest)) as [gd Hgd].
  { apply Forall_fmap. apply Forall_forall. intros u Hu.
    apply list_elem_of_lookup in Hu as [k Hk].
    destruct (Forall2_lookup_r _ _ _ _ _ Hups Hk) as (i & Hi & Hszi & Hmi).
    apply list_elem_of_lookup_2 in Hi.
    destruct (proj1 (Forall_forall _ _) Hall i Hi) as [[Hsi Hmdi] _].
    apply to_tensor_shape_eq; [|congruence].
    cbn. rewrite Hszi, Hsz0. fold s. by rewrite Hsi. }
  rewrite fmap_cons, Hgd. by eexists.
Qed.

(** ** Two runs from the folder to the corpus *)

(** One image of 64 by 64 pixels, patches of 32, a cap of 10, halving, no
    noise: four pairs, each 32 by 32 over 16 by 16. *)
Example corpus_of_64x64 :
  ∃ ds g',
    ImageData_init one_pixel_or_more [Raster (64, 64)%N RGB "a.png"]
      10 32 2 0 None "RGB" [0; 1; 2; 0]%nat = (Ok ds, g') ∧
    len ds = 4 ∧
    Forall (λ pair, size pair.1 = (16, 16) ∧ size pair.2 = (32, 32))
      (patch_grids ds).
Proof.
  eexists _, _. split; [vm_compute; reflexivity|]. split; [reflexivity|].
  repeat constructor.
Qed.

(** An image smaller than one patch yields no pair, and no error. *)
Example corpus_of_20x20 :
  ∃ ds,
    ImageData_init one_pixel_or_more [Raster (20, 20)%N RGB "small.png"]
      10 32 2 0 None "RGB" [] = (Ok ds, []) ∧
    len ds = 0.
Proof. eexists. split; reflexivity. Qed.

(** * Further properties of the loader *)

(** ** Running a list of computations *)

Lemma mapM_M_cons {A B} (f : A → M B) (x : A) (l : list A) (g : Rng) :
  mapM f (x :: l) g =
    match f x g with
    | (Ok y, g1) =>
        match mapM f l g1 with
        | (Ok ys, g2) => (Ok (y :: ys), g2)
        | (Raise e, g2) => (Raise e, g2)
        end
    | (Raise e, g1) => (Raise e, g1)
    end.
Proof.
  cbn [mapM]. unfold mbind at 1, M_bind at 1. destruct (f x g) as [[y|e] g1]; [|done].
  unfold mbind, M_bind.
  change (fix go (l0 : list A) : M (list B) := _) with (mapM f).
  by destruct (mapM f l g1) as [[ys|e] g2].
Qed.

Lemma mapM_M_Ok {A B} (f : A → M B) (Q : A → B → Prop) (l : list A) :
  (∀ x g y g', x ∈ l → f x g = (Ok y, g') → Q x y) →
  ∀ g ys g', mapM f l g = (Ok ys, g') → Forall2 Q l ys.
Proof.
  induction l as [|x l IH]; intros HQ g ys g' Hrun.
  - injection Hrun as <- _. constructor.
  - rewrite mapM_M_cons in Hrun.
    destruct (f x g) as [[y|e] g1] eqn:Hx; [|discriminate].
    destruct (mapM f l g1) as [[ys'|e] g2] eqn:Hl; [|discriminate].
    injection Hrun as <- _. constructor.
    + eapply HQ; [left|done].
    + eapply IH; [|done]. intros x' ? ? ? Hin. apply HQ. by right.
Qed.

Lemma mapM_M_total {A B} (f : A → M B) (l : list A) :
  (∀ x g, x ∈ l → ∃ y g', f x g = (Ok y, g')) →
  ∀ g, ∃ ys g', mapM f l g = (Ok ys, g').
Proof.
  induction l as [|x l IH]; intros Hf g.
  - by eexists _, _.
  - rewrite mapM_M_cons. destruct (Hf x g) as (y & g1 & ->); [left|].
    destruct (IH (λ x' g0 Hin, Hf x' g0 (list_elem_of_further _ _ _ Hin)) g1)
      as (ys & g2 & ->).
    by eexists _, _.
Qed.

Lemma mapM_result_Ok {A B} (f : A → result B) (l : list A) (ys : list B) :
  mapM f l = Ok ys → Forall2 (λ x y, f x = Ok y) l ys.
Proof.
  revert ys. induction l as [|x l IH]; intros ys Hrun.
  - injection Hrun as <-. constructor.
  - cbn [mapM] in Hrun. unfold mbind at 1, result_bind at 1 in Hrun.
    destruct (f x) as [y|e] eqn:Hx; [|discriminate].
    unfold mbind, result_bind in Hrun.
    change (fix go (l0 : list A) : result (list B) := _) with (mapM f) in Hrun.
    destruct (mapM f l) as [ys'|e] eqn:Hl; [|discriminate].
    injection Hrun as <-. constructor; [done|]. by apply IH.
Qed.

(** ** The engine, step by step *)

Lemma next_draw_run (g : Rng) : ∃ d, next_draw g = (Ok d, drop 1 g).
Proof. destruct g; by eexists. Qed.

Lemma choice_run {A} (seq : list A) (x : A) (g g' : Rng) :
  choice seq g = (Ok x, g') → x ∈ seq ∧ g' = drop 1 g.
Proof.
  unfold choice, randbelow, mbind, M_bind, mret, M_ret.
  destruct (next_draw_run g) as [d ->].
  destruct (seq !! _) as [y|] eqn:Hy; [|discriminate].
  intros [= <- <-]. split; [|done]. by eapply list_elem_of_lookup_2.
Qed.

Lemma shrink_img_Ok (resizable : Z * Z → bool) (self : ImageAugment)
    (hr_img lr : Image) (g g' : Rng) :
  shrink_img resizable self hr_img g = (Ok lr, g') →
  shrink_size self ≠ 0 ∧
  size lr = shrink_target self hr_img ∧
  ∃ m,
    lr = Resize (Z.to_N (shrink_target self hr_img).1,
                 Z.to_N (shrink_target self hr_img).2) m hr_img ∧
    match down_sample_method self with
    | Some fixed => m = fixed ∧ g' = g
    | None => m ∈ [BILINEAR; BICUBIC; LANCZOS] ∧ g' = drop 1 g
    end.
Proof.
  unfold shrink_img, shrink_target, mbind, M_bind.
  destruct (size hr_img) as [w h] eqn:Hsz. cbn [fst snd].
  destruct (down_sample_method self) as [fixed|].
  - unfold mret, M_ret. case_bool_decide as Hs; [discriminate|].
    unfold lift. intros [= Hr <-].
    apply pil_resize_size in Hr as [Hsize ->]. split_and!; [done..|].
    by exists fixed.
  - destruct (choice _ g) as [[m|e] g1] eqn:Hc; [|discriminate].
    apply choice_run in Hc as [Hm ->].
    case_bool_decide as Hs; [discriminate|].
    unfold lift. intros [= Hr <-].
    apply pil_resize_size in Hr as [Hsize ->]. split_and!; [done..|].
    by exists m.
Qed.

Lemma round_uniform_run (lo hi : Z) (g : Rng) :
  lo ≤ hi → ∃ r, round_uniform lo hi g = (Ok r, drop 1 g) ∧ lo ≤ r ≤ hi.
Proof.
  intros Hle. unfold round_uniform, mbind, M_bind, mret, M_ret.
  destruct (next_draw_run g) as [d ->]. eexists. split; [done|].
  pose proof (Z.mod_pos_bound (Z.of_nat d) (hi - lo + 1)). lia.
Qed.

(** What a run of [process] that returns has done. *)
Lemma process_Ok (resizable : Z * Z → bool) (self : ImageAugment)
    (hr_patch : Image) (grid : Box) (g g' : Rng) (lr hr : Image) :
  (noise_level self).1 ≤ (noise_level self).2 →
  process resizable self hr_patch grid g = (Ok (lr, hr), g') →
  hr = Crop grid hr_patch ∧
  shrink_size self ≠ 0 ∧
  size lr = shrink_target self hr ∧
  mode lr = mode hr_patch ∧
  degraded_from self lr hr.
Proof.
  intros Hrange. unfold process, mbind, M_bind.
  destruct (shrink_img _ _ _ _) as [[lr0|e] g0] eqn:Hs; [|discriminate].
  apply shrink_img_Ok in Hs as (Hne & Hsz & m & Hlr0 & _).
  case_bool_decide as Hnoise.
  - unfold add_jpeg_noise, mbind, M_bind, mret, M_ret.
    destruct (round_uniform_run _ _ g0 Hrange) as (r & -> & Hr).
    intros [= <- <- _]. split_and!; [done..| |].
    + rewrite Hlr0. done.
    + exists m. right. exists (100 - r). rewrite Hlr0. split; [done|lia].
  - unfold mret, M_ret. intros [= <- <- _]. split_and!; [done..| |].
    + rewrite Hlr0. done.
    + exists m. by left.
Qed.

(** X12. A low-resolution image that [shrink_img] returns is the resize of
    its argument to the truncated quotients.  With a filter fixed at
    construction that filter is used and the generator is left as it was;
    without one the filter is bilinear, bicubic or Lanczos (never nearest)
    and exactly one draw is consumed. *)
Theorem shrink_img_filter (resizable : Z * Z → bool) (self : ImageAugment)
    (hr_img lr : Image) (g g' : Rng) :
  shrink_img resizable self hr_img g = (Ok lr, g') →
  ∃ m,
    lr = Resize (Z.to_N ((size hr_img).1 `quot` shrink_size self),
                 Z.to_N ((size hr_img).2 `quot` shrink_size self)) m hr_img ∧
    match down_sample_method self with
    | Some fixed => m = fixed ∧ g' = g
    | None => (m = BILINEAR ∨ m = BICUBIC ∨ m = LANCZOS) ∧ g' = drop 1 g
    end.
Proof.
  intros (_ & _ & m & Hlr & Hm)%shrink_img_Ok. exists m. split; [done|].
  destruct (down_sample_method self); [done|]. destruct Hm as [Hm ->].
  split; [|done]. rewrite !elem_of_cons, elem_of_nil in Hm. tauto.
Qed.

Lemma shrink_img_filter_witness :
  shrink_img one_pixel_or_more
    {| noise_level := (0, 0); shrink_size := 2; down_sample_method := None |}
    (Raster (8, 6)%N RGB "a.png") [5; 9]%nat
    = (Ok (Resize (4, 3)%N LANCZOS (Raster (8, 6)%N RGB "a.png")), [9]%nat) ∧
  ∃ m,
    Resize (4, 3)%N LANCZOS (Raster (8, 6)%N RGB "a.png")
      = Resize (Z.to_N (8 `quot` 2), Z.to_N (6 `quot` 2)) m
          (Raster (8, 6)%N RGB "a.png") ∧
    ((m = BILINEAR ∨ m = BICUBIC ∨ m = LANCZOS) ∧ [9]%nat = drop 1 [5; 9]%nat).
Proof.
  split; [vm_compute; reflexivity|].
  apply (shrink_img_filter one_pixel_or_more
           {| noise_level := (0, 0); shrink_size := 2; down_sample_method := None |}
           (Raster (8, 6)%N RGB "a.png") _ [5; 9]%nat [9]%nat).
  vm_compute. reflexivity.
Defined.

(** X1. An augmenter built with noise level 1 or 2, on a patch cut out by a
    grid box, returns the patch and the re-encoding of its resize: the
    low-resolution image has the floor dimensions of the noise-free case,
    and the quality of the re-encoding lies in 75..95 for level 1 and in
    50..75 for level 2.  (The codec is assumed to carry out the resize.) *)
Theorem process_noise_quality (resizable : Z * Z → bool) (s level : Z)
    (method : option Filter) (self : ImageAugment) (hr_patch : Image)
    (grid : Box) (g : Rng) :
  let w := (size (Crop grid hr_patch)).1 in
  let h := (size (Crop grid hr_patch)).2 in
  ImageAugment_init s level method = Ok self →
  level = 1 ∨ level = 2 →
  0 < s →
  resizable (w `div` s, h `div` s) = true →
  ∃ q m g',
    process resizable self hr_patch grid g
      = (Ok (JpegRoundTrip q
               (Resize (Z.to_N (w `div` s), Z.to_N (h `div` s)) m
                  (Crop grid hr_patch)),
             Crop grid hr_patch), g') ∧
    size (JpegRoundTrip q
            (Resize (Z.to_N (w `div` s), Z.to_N (h `div` s)) m
               (Crop grid hr_patch))) = (w `div` s, h `div` s) ∧
    (level = 1 → 75 ≤ q ≤ 95) ∧
    (level = 2 → 50 ≤ q ≤ 75).
Proof.
  intros w h Hinit Hlevel Hs Hr.
  assert (shrink_size self = s ∧
          (noise_level self = (5, 25) ∧ level = 1 ∨
           noise_level self = (25, 50) ∧ level = 2)) as [Hss Hnl].
  { destruct Hlevel as [-> | ->]; injection Hinit as <-; cbn; auto. }
  destruct (shrink_img_run resizable self (Crop grid hr_patch) g) as (m & g1 & Hrun);
    [lia|].
  destruct (shrink_target_floor self (Crop grid hr_patch)) as (Ht & Ht1 & Ht2);
    [lia|].
  rewrite Ht in Hrun, Ht1, Ht2. rewrite Hss in *. fold w h in Hrun, Ht1, Ht2.
  cbn [fst snd] in Ht1, Ht2.
  destruct (pil_resize_Ok resizable (Crop grid hr_patch) (w `div` s, h `div` s) m)
    as [Hlr Hsz]; [done..|].
  rewrite Hlr in Hrun. cbn [fst snd] in *.
  destruct (round_uniform_run (noise_level self).1 (noise_level self).2 g1)
    as (r & Hru & Hrb).
  { destruct Hnl as [[-> _]|[-> _]]; cbn; lia. }
  exists (100 - r), m, (drop 1 g1). split_and!.
  - unfold process. unfold mbind at 1, M_bind at 1. rewrite Hrun.
    rewrite bool_decide_eq_true_2 by (destruct Hnl as [[-> _]|[-> _]]; cbn; lia).
    unfold add_jpeg_noise, mbind, M_bind, mret, M_ret. by rewrite Hru.
  - exact Hsz.
  - intros ->. destruct Hnl as [[Hn _]|[_ ?]]; [|lia]. rewrite Hn in Hrb. cbn in Hrb. lia.
  - intros ->. destruct Hnl as [[_ ?]|[Hn _]]; [lia|]. rewrite Hn in Hrb. cbn in Hrb. lia.
Qed.

Lemma process_noise_quality_witness :
  ImageAugment_init 2 1 (Some BICUBIC)
    = Ok {| noise_level := (5, 25); shrink_size := 2;
            down_sample_method := Some BICUBIC |} ∧
  (1 = 1 ∨ 1 = 2) ∧ 0 < 2 ∧
  ∃ q m g',
    process one_pixel_or_more
      {| noise_level := (5, 25); shrink_size := 2;
         down_sample_method := Some BICUBIC |}
      (Raster (64, 64)%N RGB "a.png") (0, 32, 32, 64) [30]%nat
      = (Ok (JpegRoundTrip q
               (Resize (Z.to_N (32 `div` 2), Z.to_N (32 `div` 2)) m
                  (Crop (0, 32, 32, 64) (Raster (64, 64)%N RGB "a.png"))),
             Crop (0, 32, 32, 64) (Raster (64, 64)%N RGB "a.png")), g') ∧
    size (JpegRoundTrip q
            (Resize (Z.to_N (32 `div` 2), Z.to_N (32 `div` 2)) m
               (Crop (0, 32, 32, 64) (Raster (64, 64)%N RGB "a.png"))))
      = (32 `div` 2, 32 `div` 2) ∧
    (1 = 1 → 75 ≤ q ≤ 95) ∧
    (1 = 2 → 50 ≤ q ≤ 75).
Proof.
  split; [reflexivity|]. split; [left; reflexivity|]. split; [lia|].
  apply (process_noise_quality one_pixel_or_more 2 1 (Some BICUBIC) _
           (Raster (64, 64)%N RGB "a.png") (0, 32, 32, 64) [30]%nat);
    [reflexivity|left; reflexivity|lia|reflexivity].
Defined.

(** ** The planner: errors, the grid under the cap, the sample *)

(** X2. The planner raises in two cases only, and before any draw: with a
    patch size of zero it raises [ZeroDivisionError]; otherwise with a
    negative cap it raises the [ValueError] of [random.sample], even on an
    image that yields no box.  In every other case it returns a grid. *)
Theorem get_img_grids_errors (ps cap : Z) (img : Image) (g : Rng) :
  (ps = 0 → get_img_grids ps cap img g = (Raise ZeroDivisionError, g)) ∧
  (ps ≠ 0 → cap < 0 →
   get_img_grids ps cap img g
     = (Raise (ValueError "Sample larger than population or is negative"), g)) ∧
  (ps ≠ 0 → 0 ≤ cap → ∃ boxes g', get_img_grids ps cap img g = (Ok boxes, g')).
Proof.
  split_and!.
  - intros ->. unfold get_img_grids. by destruct (size img).
  - intros Hps Hcap. unfold get_img_grids. destruct (size img) as [w h].
    rewrite bool_decide_eq_false_2 by done.
    rewrite bool_decide_eq_true_2 by lia.
    unfold sample. by rewrite bool_decide_eq_false_2 by lia.
  - intros Hps Hcap. by apply get_img_grids_total.
Qed.

(** X3. When the square of the smaller count is within the cap, the planner
    returns, without a draw, the boxes [patch_box_at ps i j] for [i] and
    [j] below the smaller count, row after row: the counter of the outer
    loop first. *)
Theorem grid_within_cap (ps cap : Z) (img : Image) (g : Rng) :
  0 < ps →
  square_count ps img * square_count ps img ≤ cap →
  get_img_grids ps cap img g = (Ok (square_grid ps (square_count ps img)), g).
Proof.
  intros Hps Hcap.
  pose proof (full_grid_square ps img Hps) as Hsq.
  pose proof (full_grid_length ps img Hps) as Hlen.
  unfold get_img_grids, full_grid in *. fold (square_count ps img) in Hsq, Hlen.
  destruct (size img) as [w h]. rewrite bool_decide_eq_false_2 by lia.
  rewrite bool_decide_eq_false_2 by lia. by rewrite Hsq.
Qed.

Lemma grid_within_cap_witness :
  0 < 32 ∧
  square_count 32 (Raster (100, 70)%N RGB "a.png")
    * square_count 32 (Raster (100, 70)%N RGB "a.png") ≤ 4 ∧
  get_img_grids 32 4 (Raster (100, 70)%N RGB "a.png") [3; 1]%nat
    = (Ok (square_grid 32 (square_count 32 (Raster (100, 70)%N RGB "a.png"))),
       [3; 1]%nat).
Proof.
  split; [lia|]. split; [vm_compute; discriminate|].
  apply (grid_within_cap 32 4 (Raster (100, 70)%N RGB "a.png") [3; 1]%nat);
    [lia|vm_compute; discriminate].
Defined.

(** X4. When the square of the smaller count exceeds a cap that is not
    negative, the planner returns exactly [cap] boxes, no box twice, each
    of them a box [patch_box_at ps i j] with [i] and [j] below the smaller
    count. *)
Theorem grid_above_cap (ps cap : Z) (img : Image) (g : Rng) :
  0 < ps →
  0 ≤ cap < square_count ps img * square_count ps img →
  ∃ boxes g',
    get_img_grids ps cap img g = (Ok boxes, g') ∧
    Z.of_nat (length boxes) = cap ∧
    NoDup boxes ∧
    ∀ box, box ∈ boxes →
      ∃ i j, 0 ≤ i < square_count ps img ∧ 0 ≤ j < square_count ps img ∧
             box = patch_box_at ps i j.
Proof.
  intros Hps Hcap.
  destruct (get_img_grids_total ps cap img g) as (boxes & g' & Hg); [lia..|].
  exists boxes, g'. split; [done|].
  apply get_img_grids_Ok in Hg as (_ & Hsub & Hlen).
  rewrite full_grid_length in Hlen by done. fold (square_count ps img) in Hlen.
  split; [lia|]. split.
  - eapply submseteq_NoDup; [done|]. unfold full_grid.
    destruct (size img). apply NoDup_tiling. lia.
  - intros box Hin. eapply elem_of_submseteq in Hin; [|done].
    rewrite full_grid_square in Hin by done. cbv zeta in Hin.
    fold (square_count ps img) in Hin.
    apply list_elem_of_bind in Hin as (i & Hin & Hi%elem_of_seqZ).
    apply list_elem_of_bind in Hin as (j & Hin%list_elem_of_singleton & Hj%elem_of_seqZ).
    exists i, j. split_and!; lia || done.
Qed.

Lemma grid_above_cap_witness :
  0 < 32 ∧
  0 ≤ 3 < square_count 32 (Raster (100, 70)%N RGB "a.png")
          * square_count 32 (Raster (100, 70)%N RGB "a.png") ∧
  ∃ boxes g',
    get_img_grids 32 3 (Raster (100, 70)%N RGB "a.png") [3; 1]%nat
      = (Ok boxes, g') ∧
    Z.of_nat (length boxes) = 3 ∧
    NoDup boxes ∧
    ∀ box, box ∈ boxes →
      ∃ i j, 0 ≤ i < square_count 32 (Raster (100, 70)%N RGB "a.png") ∧
             0 ≤ j < square_count 32 (Raster (100, 70)%N RGB "a.png") ∧
             box = patch_box_at 32 i j.
Proof.
  split; [lia|]. split; [vm_compute; split; [discriminate|reflexivity]|].
  apply (grid_above_cap 32 3 (Raster (100, 70)%N RGB "a.png") [3; 1]%nat);
    [lia|vm_compute; split; [discriminate|reflexivity]].
Defined.

(** ** From the folder to the corpus *)

Lemma ImageAugment_init_Ok (s level : Z) (method : option Filter)
    (self : ImageAugment) :
  ImageAugment_init s level method = Ok self →
  shrink_size self = s ∧ down_sample_method self = method ∧
  (noise_level self).1 ≤ (noise_level self).2.
Proof.
  unfold ImageAugment_init.
  repeat case_bool_decide; intros [= <-]; cbn; split_and!; done || lia.
Qed.

(** What one file contributes: per box of its grid, in the order of the
    grid, the crop at that box and what the engine makes of it. *)
Lemma get_img_patches_Ok (resizable : Z * Z → bool) (ps cap : Z)
    (self : ImageAugment) (img_file : Image) (g g' : Rng)
    (pairs : list (Image * Image)) :
  (noise_level self).1 ≤ (noise_level self).2 →
  get_img_patches resizable ps cap self img_file g = (Ok pairs, g') →
  ∃ boxes,
    ps ≠ 0 ∧
    boxes ⊆+ full_grid ps (Convert RGB img_file) ∧
    Z.of_nat (length boxes)
      = Z.min (Z.of_nat (length (full_grid ps (Convert RGB img_file)))) cap ∧
    Forall2 (λ box pair,
               pair.2 = Crop box (Convert RGB img_file) ∧
               size pair.1 = shrink_target self pair.2 ∧
               mode pair.1 = RGB ∧
               degraded_from self pair.1 pair.2) boxes pairs.
Proof.
  intros Hrange. unfold get_img_patches. unfold mbind at 1, M_bind at 1.
  destruct (get_img_grids _ _ _ g) as [[boxes|e] g1] eqn:Hg; [|discriminate].
  apply get_img_grids_Ok in Hg as (Hps & Hsub & Hlen). intros Hrun.
  exists boxes. split_and!; [done..|].
  eapply mapM_M_Ok; [|exact Hrun].
  intros box g0 [lr hr] g0' _ Hp. cbn [fst snd].
  by apply process_Ok in Hp as (-> & _ & ? & ? & ?).
Qed.

Lemma ImageData_init_Ok (resizable : Z * Z → bool) (folder : list Image)
    (cap ps s level : Z) (method : option Filter) (color : string)
    (g g' : Rng) (ds : ImageData) :
  ImageData_init resizable folder cap ps s level method color g = (Ok ds, g') →
  ImageAugment_init s level method = Ok (img_augmenter ds) ∧
  color_mod ds = color ∧
  ∃ per_file,
    patch_grids ds = mjoin per_file ∧
    Forall2 (λ img_file pairs, ∃ g0 g1,
               get_img_patches resizable ps cap (img_augmenter ds) img_file g0
                 = (Ok pairs, g1)) folder per_file.
Proof.
  unfold ImageData_init, mbind, M_bind, lift.
  destruct (ImageAugment_init s level method) as [aug|e]; [|discriminate].
  unfold get_img_patch_grids, mbind, M_bind.
  destruct (mapM (M:=M) _ folder g) as [[per_file|e] g1] eqn:Hrun; [|discriminate].
  unfold mret, M_ret. intros [= <- _]. cbn. split_and!; [done..|].
  exists per_file. split; [done|].
  eapply mapM_M_Ok; [|exact Hrun]. intros img_file g0 pairs g0' _ Hp. eauto.
Qed.

(** Every pair of a corpus, traced back to its file and its box. *)
Lemma corpus_pairs (resizable : Z * Z → bool) (folder : list Image)
    (cap ps s level : Z) (method : option Filter) (color : string)
    (g g' : Rng) (ds : ImageData) (pair : Image * Image) :
  ImageData_init resizable folder cap ps s level method color g = (Ok ds, g') →
  pair ∈ patch_grids ds →
  shrink_size (img_augmenter ds) = s ∧ ps ≠ 0 ∧
  ∃ img_file box,
    img_file ∈ folder ∧
    box ∈ full_grid ps (Convert RGB img_file) ∧
    pair.2 = Crop box (Convert RGB img_file) ∧
    size pair.1 = shrink_target (img_augmenter ds) pair.2 ∧
    mode pair.1 = RGB ∧
    degraded_from (img_augmenter ds) pair.1 pair.2.
Proof.
  intros (Haug & _ & per_file & Hpg & Hall)%ImageData_init_Ok Hin.
  apply ImageAugment_init_Ok in Haug as (Hs & _ & Hrange).
  rewrite Hpg in Hin. apply list_elem_of_join in Hin as (pairs & Hin & Hpairs).
  apply list_elem_of_lookup in Hpairs as [k Hk].
  destruct (Forall2_lookup_r _ _ _ _ _ Hall Hk) as (img_file & Hf & g0 & g1 & Hrun).
  apply get_img_patches_Ok in Hrun as (boxes & Hps & Hsub & _ & Hboxes); [|done].
  apply list_elem_of_lookup in Hin as [n Hn].
  destruct (Forall2_lookup_r _ _ _ _ _ Hboxes Hn) as (box & Hb & ? & ? & ? & ?).
  split_and!; [done..|]. exists img_file, box. split_and!; [|  |done..].
  - by eapply list_elem_of_lookup_2.
  - eapply elem_of_submseteq; [|done]. by eapply list_elem_of_lookup_2.
Qed.

Lemma corpus_pair_sizes (resizable : Z * Z → bool) (folder : list Image)
    (cap ps s level : Z) (method : option Filter) (color : string)
    (g g' : Rng) (ds : ImageData) (pair : Image * Image) :
  ImageData_init resizable folder cap ps s level method color g = (Ok ds, g') →
  0 < ps → 0 < s →
  pair ∈ patch_grids ds →
  size pair.2 = (ps, ps) ∧
  size pair.1 = (ps `div` s, ps `div` s) ∧
  mode pair.1 = RGB ∧ mode pair.2 = RGB.
Proof.
  intros Hinit Hps Hs Hin.
  destruct (corpus_pairs _ _ _ _ _ _ _ _ _ _ _ _ Hinit Hin)
    as (Hss & _ & img_file & box & _ & Hbox & Hhr & Hlr & Hm & _).
  assert (size pair.2 = (ps, ps)) as Hsz.
  { rewrite Hhr. unfold full_grid in Hbox. destruct (size _) as [w h].
    apply elem_of_tiling in Hbox as (i & j & _ & _ & _ & _ & ->).
    unfold patch_box_at. cbn. f_equal; lia. }
  split_and!; [done| |done|by rewrite Hhr].
  rewrite Hlr. destruct (shrink_target_floor (img_augmenter ds) pair.2) as [-> _];
    [lia|]. by rewrite Hsz, Hss.
Qed.

(** X5. A corpus built with a positive patch size and a positive shrink
    size is uniform: in every pair the high-resolution member measures
    [ps] by [ps], the low-resolution member [ps div s] by [ps div s], and
    both are RGB images. *)
Theorem corpus_patch_sizes (resizable : Z * Z → bool) (folder : list Image)
    (cap ps s level : Z) (method : option Filter) (color : string)
    (g g' : Rng) (ds : ImageData) :
  ImageData_init resizable folder cap ps s level method color g = (Ok ds, g') →
  0 < ps → 0 < s →
  Forall (λ pair,
            size pair.2 = (ps, ps) ∧
            size pair.1 = (ps `div` s, ps `div` s) ∧
            mode pair.1 = RGB ∧ mode pair.2 = RGB) (patch_grids ds).
Proof.
  intros Hinit Hps Hs. apply Forall_forall. intros pair Hin.
  by eapply corpus_pair_sizes.
Qed.

Lemma corpus_patch_sizes_witness :
  ImageData_init one_pixel_or_more [Raster (64, 64)%N RGB "a.png"]
    10 32 2 1 None "RGB" noisy_draws = (Ok noisy_corpus, []) ∧
  0 < 32 ∧ 0 < 2 ∧
  Forall (λ pair,
            size pair.2 = (32, 32) ∧
            size pair.1 = (32 `div` 2, 32 `div` 2) ∧
            mode pair.1 = RGB ∧ mode pair.2 = RGB) (patch_grids noisy_corpus).
Proof.
  split; [vm_compute; reflexivity|]. split; [lia|]. split; [lia|].
  apply (corpus_patch_sizes one_pixel_or_more [Raster (64, 64)%N RGB "a.png"]
           10 32 2 1 None "RGB" noisy_draws [] noisy_corpus);
    [vm_compute; reflexivity|lia|lia].
Defined.

(** X6. Every pair of a corpus comes from one file of the folder and one
    box: its high-resolution member is the crop of the file, converted to
    RGB, at a box that lies within the file and has sides [ps]; its
    low-resolution member is the resize of that very crop to the shrink
    target, re-encoded at most once, at a quality within the noise range. *)
Theorem corpus_provenance (resizable : Z * Z → bool) (folder : list Image)
    (cap ps s level : Z) (method : option Filter) (color : string)
    (g g' : Rng) (ds : ImageData) (pair : Image * Image) :
  ImageData_init resizable folder cap ps s level method color g = (Ok ds, g') →
  0 < ps →
  pair ∈ patch_grids ds →
  ∃ img_file box,
    img_file ∈ folder ∧
    pair.2 = Crop box (Convert RGB img_file) ∧
    within_as_cropped img_file box ∧
    sides box = (ps, ps) ∧
    degraded_from (img_augmenter ds) pair.1 pair.2.
Proof.
  intros Hinit Hps Hin.
  destruct (corpus_pairs _ _ _ _ _ _ _ _ _ _ _ _ Hinit Hin)
    as (_ & _ & img_file & box & Hf & Hbox & Hhr & _ & _ & Hdeg).
  exists img_file, box. split_and!; [done..| | |done].
  - by apply (full_grid_within ps (Convert RGB img_file)).
  - unfold full_grid in Hbox. destruct (size _) as [w h].
    apply elem_of_tiling in Hbox as (i & j & _ & _ & _ & _ & ->).
    unfold sides, patch_box_at. f_equal; lia.
Qed.

Lemma corpus_provenance_witness :
  ImageData_init one_pixel_or_more [Raster (64, 64)%N RGB "a.png"]
    10 32 2 1 None "RGB" noisy_draws = (Ok noisy_corpus, []) ∧
  0 < 32 ∧
  first_noisy_pair ∈ patch_grids noisy_corpus ∧
  ∃ img_file box,
    img_file ∈ [Raster (64, 64)%N RGB "a.png"] ∧
    first_noisy_pair.2 = Crop box (Convert RGB img_file) ∧
    within_as_cropped img_file box ∧
    sides box = (32, 32) ∧
    degraded_from (img_augmenter noisy_corpus) first_noisy_pair.1 first_noisy_pair.2.
Proof.
  split; [vm_compute; reflexivity|]. split; [lia|]. split; [left|].
  apply (corpus_provenance one_pixel_or_more [Raster (64, 64)%N RGB "a.png"]
           10 32 2 1 None "RGB" noisy_draws [] noisy_corpus first_noisy_pair);
    [vm_compute; reflexivity|lia|left].
Defined.

Lemma corpus_length_sum (resizable : Z * Z → bool) (ps cap : Z)
    (self : ImageAugment) (folder : list Image)
    (per_file : list (list (Image * Image))) :
  0 < ps →
  (noise_level self).1 ≤ (noise_level self).2 →
  Forall2 (λ img_file pairs, ∃ g0 g1,
             get_img_patches resizable ps cap self img_file g0 = (Ok pairs, g1))
    folder per_file →
  Z.of_nat (length (mjoin per_file))
    = foldr (λ img_file total, planned ps cap img_file + total) 0 folder.
Proof.
  intros Hps Hrange. induction 1 as [|img_file pairs folder per_file Hrun _ IH].
  - done.
  - destruct Hrun as (g0 & g1 & Hrun).
    apply get_img_patches_Ok in Hrun as (boxes & _ & _ & Hlen & Hpairs); [|done].
    apply Forall2_length in Hpairs.
    rewrite full_grid_length in Hlen by done.
    change (mjoin (pairs :: per_file)) with (pairs ++ mjoin per_file).
    cbn [foldr]. rewrite length_app, Nat2Z.inj_add, IH.
    unfold planned, square_count. cbn [size] in Hlen. lia.
Qed.

(** X7. The length of a corpus built with a positive patch size is the sum,
    over the files of the folder, of the number of boxes planned for each:
    the square of the smaller of its two counts, capped. *)
Theorem corpus_length (resizable : Z * Z → bool) (folder : list Image)
    (cap ps s level : Z) (method : option Filter) (color : string)
    (g g' : Rng) (ds : ImageData) :
  ImageData_init resizable folder cap ps s level method color g = (Ok ds, g') →
  0 < ps →
  len ds = foldr (λ img_file total, planned ps cap img_file + total) 0 folder.
Proof.
  intros (Haug & _ & per_file & Hpg & Hall)%ImageData_init_Ok Hps.
  apply ImageAugment_init_Ok in Haug as (_ & _ & Hrange).
  unfold len. rewrite Hpg. by eapply corpus_length_sum.
Qed.

Lemma corpus_length_witness :
  ImageData_init one_pixel_or_more three_files 3 32 2 0 (Some BICUBIC) "RGB"
    [5; 1]%nat = (Ok three_files_corpus, []) ∧
  0 < 32 ∧
  len three_files_corpus =
    foldr (λ img_file total, planned 32 3 img_file + total) 0 three_files ∧
  len three_files_corpus = 3 + (0 + (3 + 0)).
Proof.
  split; [vm_compute; reflexivity|]. split; [lia|]. split; [|reflexivity].
  apply (corpus_length one_pixel_or_more three_files
           3 32 2 0 (Some BICUBIC) "RGB" [5; 1]%nat []);
    [vm_compute; reflexivity|lia].
Defined.

(** X8. The patches of a folder keep the order of its files, whatever
    draws each file gets: what [get_img_patch_grids] returns is the
    concatenation, in the order of the files, of one list of pairs per
    file, and the high-resolution members of the list of a file are crops
    of that file, converted to RGB, at boxes of its grid, no box twice. *)
Theorem get_img_patch_grids_file_order (resizable : Z * Z → bool)
    (files : list Image) (ps cap : Z) (self : ImageAugment) (g g' : Rng)
    (patches : list (Image * Image)) :
  get_img_patch_grids resizable files ps cap self g = (Ok patches, g') →
  ∃ per_file,
    patches = mjoin per_file ∧
    Forall2 (λ img_file pairs,
               ∃ boxes,
                 boxes ⊆+ full_grid ps (Convert RGB img_file) ∧
                 pairs.*2 = (λ box, Crop box (Convert RGB img_file)) <$> boxes)
      files per_file.
Proof.
  unfold get_img_patch_grids, mbind, M_bind.
  destruct (mapM (M:=M) _ files g) as [[per_file|e] g1] eqn:Hrun; [|discriminate].
  unfold mret, M_ret. intros [= <- _]. exists per_file. split; [done|].
  eapply mapM_M_Ok; [|exact Hrun]. intros img_file g0 pairs g0' _.
  unfold get_img_patches. unfold mbind at 1, M_bind at 1.
  destruct (get_img_grids _ _ _ g0) as [[boxes|e] g2] eqn:Hg; [|discriminate].
  apply get_img_grids_Ok in Hg as (_ & Hsub & _). intros Hp.
  exists boxes. split; [done|].
  assert (Forall2 (λ box (pair : Image * Image),
                     pair.2 = Crop box (Convert RGB img_file)) boxes pairs) as Hall.
  { eapply mapM_M_Ok; [|exact Hp].
    intros box g3 [lr hr] g3' _ Hproc. cbn [snd].
    unfold process, mbind, M_bind in Hproc.
    destruct (shrink_img _ _ _ _) as [[lr0|?] ?]; [|discriminate].
    destruct (if bool_decide _ then _ else _) as [[?|?] ?]; [|discriminate].
    by injection Hproc as _ <- _. }
  clear Hp Hsub. induction Hall as [|box pair boxes pairs Hpair _ IH]; [done|].
  cbn [fmap list_fmap]. by rewrite Hpair, <- IH.
Qed.

Lemma get_img_patch_grids_file_order_witness :
  ∃ patches g',
    get_img_patch_grids one_pixel_or_more three_files 32 3 halving [5; 1]%nat
      = (Ok patches, g') ∧
    ∃ per_file,
      patches = mjoin per_file ∧
      Forall2 (λ img_file pairs,
                 ∃ boxes,
                   boxes ⊆+ full_grid 32 (Convert RGB img_file) ∧
                   pairs.*2 = (λ box, Crop box (Convert RGB img_file)) <$> boxes)
        three_files per_file.
Proof.
  eexists _, _. split; [vm_compute; reflexivity|].
  eapply (get_img_patch_grids_file_order one_pixel_or_more three_files 32 3
            halving [5; 1]%nat).
  vm_compute. reflexivity.
Defined.

(** X9. A folder without files gives, for each of the three noise levels
    and whatever the other parameters (a patch size of zero included), a
    corpus of length zero, without a draw.  On such a corpus every fetch
    raises [IndexError], and collating the empty batch raises the error of
    [torch.stack]. *)
Theorem empty_folder (resizable : Z * Z → bool) (use_cuda : bool)
    (cap ps s level : Z) (method : option Filter) (color : string) (g : Rng) :
  level = 0 ∨ level = 1 ∨ level = 2 →
  ∃ ds,
    ImageData_init resizable [] cap ps s level method color g = (Ok ds, g) ∧
    len ds = 0 ∧
    (∀ index, getitem ds index = Raise IndexError) ∧
    (∀ up pad,
       batch_collector resizable use_cuda (loader ds up pad) []
         = Raise (RuntimeError "stack expects a non-empty TensorList")).
Proof.
  intros Hlevel.
  assert (∃ aug, ImageAugment_init s level method = Ok aug) as [aug Haug].
  { destruct Hlevel as [->|[->| ->]]; by eexists. }
  eexists. split_and!.
  - unfold ImageData_init, mbind, M_bind, lift. rewrite Haug. reflexivity.
  - reflexivity.
  - intros index. unfold getitem. cbn [patch_grids].
    rewrite list_getitem_outside; [done|]. cbn. lia.
  - reflexivity.
Qed.

Lemma empty_folder_witness :
  (2 = 0 ∨ 2 = 1 ∨ 2 = 2) ∧
  ∃ ds,
    ImageData_init one_pixel_or_more [] 10 0 2 2 None "RGB" [4]%nat
      = (Ok ds, [4]%nat) ∧
    len ds = 0 ∧
    (∀ index, getitem ds index = Raise IndexError) ∧
    (∀ up pad,
       batch_collector one_pixel_or_more false (loader ds up pad) []
         = Raise (RuntimeError "stack expects a non-empty TensorList")).
Proof.
  split; [right; right; reflexivity|].
  apply (empty_folder one_pixel_or_more false 10 0 2 2 None "RGB" [4]%nat).
  right; right; reflexivity.
Defined.

(** ** Fetching and collating, end to end *)

Lemma list_getitem_Ok {A} (l : list A) (index : Z) (x : A) :
  list_getitem l index = Ok x →
  - Z.of_nat (length l) ≤ index < Z.of_nat (length l) ∧ x ∈ l.
Proof.
  intros Hget. split.
  - destruct (decide (- Z.of_nat (length l) ≤ index < Z.of_nat (length l)))
      as [?|Hout]; [done|].
    by rewrite list_getitem_outside in Hget.
  - unfold list_getitem in Hget. case_bool_decide; [|discriminate].
    destruct (l !! _) as [y|] eqn:Hy; [|discriminate].
    injection Hget as <-. by eapply list_elem_of_lookup_2.
Qed.

Lemma list_getitem_within {A} (l : list A) (index : Z) :
  - Z.of_nat (length l) ≤ index < Z.of_nat (length l) →
  ∃ x, list_getitem l index = Ok x.
Proof.
  intros Hi. destruct (decide (index < 0)).
  - rewrite list_getitem_from_end by lia.
    destruct (list_getitem_in_range l (index + Z.of_nat (length l)))
      as (x & _ & ->); [lia|]. by eexists.
  - destruct (list_getitem_in_range l index) as (x & _ & ->); [lia|].
    by eexists.
Qed.

(** What a fetch that returns has fetched. *)
Lemma getitem_Ok (self : ImageData) (index : Z) (fetched : Image * Image) :
  getitem self index = Ok fetched →
  - len self ≤ index < len self ∧
  ∃ stored,
    stored ∈ patch_grids self ∧
    (color_mod self = "RGB" ∧
     fetched = (Convert RGB stored.1, Convert RGB stored.2) ∨
     color_mod self = "YCbCr" ∧
     fetched = (Band 0 (Convert YCbCr stored.1), Band 0 (Convert YCbCr stored.2))).
Proof.
  unfold getitem, mbind, result_bind.
  destruct (list_getitem _ index) as [stored|e] eqn:Hget; [|discriminate].
  apply list_getitem_Ok in Hget as [Hi Hin]. intros Hf.
  split; [done|]. exists stored. split; [done|].
  destruct (String.eqb_spec (color_mod self) "RGB") as [->|_].
  - left. by injection Hf as <-.
  - destruct (String.eqb_spec (color_mod self) "YCbCr") as [->|_]; [|discriminate].
    right. by injection Hf as <-.
Qed.

(** X14. A fetch returns a pair exactly when the index lies in
    [[-length, length)] and the colour mode is RGB or YCbCr. *)
Theorem getitem_returns_iff (self : ImageData) (index : Z) :
  (∃ fetched, getitem self index = Ok fetched) ↔
  - len self ≤ index < len self ∧
  (color_mod self = "RGB" ∨ color_mod self = "YCbCr").
Proof.
  split.
  - intros [fetched (Hi & stored & _ & Hc)%getitem_Ok]. split; [done|].
    destruct Hc as [[? _]|[? _]]; auto.
  - intros [Hi Hc]. unfold getitem.
    destruct (list_getitem_within (patch_grids self) index Hi) as [stored ->].
    unfold mbind, result_bind. destruct Hc as [-> | ->]; by eexists.
Qed.

Lemma ZeroPad2d_device (pad : Z) (t t' : Tensor) :
  ZeroPad2d pad t = Ok t' → device t' = device t.
Proof.
  unfold ZeroPad2d. destruct (shape t) as [|? [|? [|? [|? [|? ?]]]]];
    try discriminate.
  case_bool_decide; [|discriminate]. by intros [= <-].
Qed.

Lemma device_on_device (use_cuda : bool) (t : Tensor) :
  device t = CPU → device (on_device use_cuda t) = target_device use_cuda.
Proof. by destruct use_cuda. Qed.

Lemma stack_to_tensor_Ok {A} (pic : A → Image) (batch : list A) (t : Tensor) :
  stack ((λ i, to_tensor (pic i)) <$> batch) = Ok t →
  ∃ first rest,
    batch = first :: rest ∧
    shape t = [Z.of_nat (length batch); Z.of_nat (channels (pic first));
               (size (pic first)).2; (size (pic first)).1] ∧
    device t = CPU.
Proof.
  intros (t0 & ts & Heq & Hsh & Hdev)%stack_Ok.
  destruct batch as [|first rest]; [discriminate|]. injection Heq as <- _.
  exists first, rest. rewrite length_fmap, to_tensor_shape in Hsh.
  split_and!; [done..|]. rewrite Hdev. unfold to_tensor. by destruct (size _).
Qed.

(** What a collation that returns has built, read off the first pair of
    the batch. *)
Lemma batch_collector_Ok (resizable : Z * Z → bool) (use_cuda : bool)
    (self : ImageLoader) (batch : list (Image * Image))
    (low : LowBatch) (hr : Tensor) :
  batch_collector resizable use_cuda self batch = Ok (low, hr) →
  ∃ first rest,
    batch = first :: rest ∧
    (shape hr = [Z.of_nat (length batch); Z.of_nat (channels first.2);
                 (size first.2).2; (size first.2).1] ∧
     shape (low_tensor low)
       = [Z.of_nat (length batch); Z.of_nat (channels first.1);
          (size first.1).2 + 2 * pad_img self;
          (size first.1).1 + 2 * pad_img self] ∧
     match loader_up_sample self, guide low with
     | Some _, Some gd =>
         shape gd = [Z.of_nat (length batch); Z.of_nat (channels first.1);
                     shrink_size (img_augmenter (dataset self)) * (size first.1).2;
                     shrink_size (img_augmenter (dataset self)) * (size first.1).1]
     | None, None => True
     | _, _ => False
     end) ∧
    (device hr = target_device use_cuda ∧
     device (low_tensor low) = target_device use_cuda ∧
     ∀ gd, guide low = Some gd → device gd = target_device use_cuda).
Proof.
  unfold batch_collector, mbind, result_bind, mret, result_ret.
  destruct (stack ((λ i, to_tensor i.1) <$> batch)) as [lr|e] eqn:Hlr;
    [|discriminate].
  destruct (stack ((λ i, to_tensor i.2) <$> batch)) as [hr0|e] eqn:Hhr;
    [|discriminate].
  apply (stack_to_tensor_Ok fst) in Hlr as (first & rest & -> & Hlsh & Hldev).
  apply (stack_to_tensor_Ok snd) in Hhr as (? & ? & [= <- <-] & Hhsh & Hhdev).
  assert (∀ lr',
    (if bool_decide (pad_img self ≠ 0) then ZeroPad2d (pad_img self) lr else Ok lr)
      = Ok lr' →
    shape lr' = [Z.of_nat (length (first :: rest)); Z.of_nat (channels first.1);
                 (size first.1).2 + 2 * pad_img self;
                 (size first.1).1 + 2 * pad_img self] ∧
    device lr' = CPU) as Hpad.
  { intros lr'. case_bool_decide as Hp.
    - intros Hz. pose proof (ZeroPad2d_device _ _ _ Hz) as Hd.
      unfold ZeroPad2d in Hz. rewrite Hlsh in Hz.
      case_bool_decide; [|discriminate]. injection Hz as <-. cbn [shape device].
      split; [done|]. cbn in Hd. congruence.
    - intros [= <-]. split; [|done]. rewrite Hlsh.
      assert (pad_img self = 0) as -> by (destruct (decide (pad_img self = 0)); done).
      by rewrite !Z.add_0_r. }
  destruct (if bool_decide _ then _ else _) as [lr'|e]; [|discriminate].
  destruct (Hpad lr' eq_refl) as [Hlsh' Hldev'].
  destruct (loader_up_sample self) as [resample|].
  - destruct (mapM _ (first :: rest)) as [ups|e] eqn:Hups; [|discriminate].
    destruct (stack (to_tensor <$> ups)) as [gd|e] eqn:Hgd; [|discriminate].
    intros [= <- <-]. exists first, rest. cbn [low_tensor guide].
    rewrite !shape_on_device. split; [done|].
    apply mapM_result_Ok in Hups.
    apply Forall2_cons_inv_l in Hups as (up0 & ups' & Hup0 & Hups & ->).
    apply (stack_to_tensor_Ok id) in Hgd as (? & ? & [= <- <-] & Hgsh & Hgdev).
    rewrite up_sample_unfold in Hup0.
    apply pil_resize_size in Hup0 as [Hsz0 Hup0].
    split; [split_and!; [done..|]|].
    + rewrite Hgsh. cbn [id]. rewrite Hsz0. cbn [fst snd].
      apply Forall2_length in Hups. cbn [length]. rewrite <- Hups.
      unfold channels. rewrite Hup0. done.
    + split_and!; [by apply device_on_device..|].
      intros ? [= <-]. by apply device_on_device.
  - intros [= <- <-]. exists first, rest. cbn [low_tensor guide].
    rewrite !shape_on_device. split; [done|]. split; [done|].
    split_and!; [by apply device_on_device..|]. intros ? [=].
Qed.

(** X10. A collation that returns was given a batch that is not empty, and
    its tensors have the shapes of the first pair: the high-resolution
    batch is [(N, C, H, W)] of its high-resolution member; the
    low-resolution batch that of its low-resolution member with
    [2 * pad_img] added to both spatial dimensions; a guide is returned
    exactly when a filter for it is set, and is then that of the
    low-resolution member with both spatial dimensions multiplied by the
    shrink size, not padded. *)
Theorem batch_collector_shapes (resizable : Z * Z → bool) (use_cuda : bool)
    (self : ImageLoader) (batch : list (Image * Image))
    (low : LowBatch) (hr : Tensor) :
  batch_collector resizable use_cuda self batch = Ok (low, hr) →
  ∃ first rest,
    batch = first :: rest ∧
    shape hr = [Z.of_nat (length batch); Z.of_nat (channels first.2);
                (size first.2).2; (size first.2).1] ∧
    shape (low_tensor low)
      = [Z.of_nat (length batch); Z.of_nat (channels first.1);
         (size first.1).2 + 2 * pad_img self;
         (size first.1).1 + 2 * pad_img self] ∧
    (is_Some (guide low) ↔ is_Some (loader_up_sample self)) ∧
    ∀ gd, guide low = Some gd →
      shape gd = [Z.of_nat (length batch); Z.of_nat (channels first.1);
                  shrink_size (img_augmenter (dataset self)) * (size first.1).2;
                  shrink_size (img_augmenter (dataset self)) * (size first.1).1].
Proof.
  intros (first & rest & -> & (Hhr & Hlow & Hgd) & _)%batch_collector_Ok.
  exists first, rest. split_and!; [done..| |].
  - destruct (loader_up_sample self), (guide low); done.
  - intros gd Hg. rewrite Hg in Hgd. by destruct (loader_up_sample self).
Qed.

Lemma batch_collector_shapes_witness :
  ∃ low hr,
    batch_collector one_pixel_or_more false
      (loader (corpus_in "RGB") (Some BILINEAR) 3) two_pairs = Ok (low, hr) ∧
    ∃ first rest,
      two_pairs = first :: rest ∧
      shape hr = [Z.of_nat (length two_pairs); Z.of_nat (channels first.2);
                  (size first.2).2; (size first.2).1] ∧
      shape (low_tensor low)
        = [Z.of_nat (length two_pairs); Z.of_nat (channels first.1);
           (size first.1).2 + 2 * 3; (size first.1).1 + 2 * 3] ∧
      (is_Some (guide low) ↔ is_Some (Some BILINEAR)) ∧
      ∀ gd, guide low = Some gd →
        shape gd = [Z.of_nat (length two_pairs); Z.of_nat (channels first.1);
                    2 * (size first.1).2; 2 * (size first.1).1].
Proof.
  eexists _, _. split; [vm_compute; reflexivity|].
  apply (batch_collector_shapes one_pixel_or_more false
           (loader (corpus_in "RGB") (Some BILINEAR) 3) two_pairs).
  vm_compute. reflexivity.
Defined.

(** X11. Every tensor of a collation that returns is left on one device:
    the accelerator when it is available, the host otherwise; this holds
    for the low-resolution batch, padded or not, for the high-resolution
    batch and for the guide. *)
Theorem batch_collector_devices (resizable : Z * Z → bool) (use_cuda : bool)
    (self : ImageLoader) (batch : list (Image * Image))
    (low : LowBatch) (hr : Tensor) :
  batch_collector resizable use_cuda self batch = Ok (low, hr) →
  device hr = target_device use_cuda ∧
  device (low_tensor low) = target_device use_cuda ∧
  ∀ gd, guide low = Some gd → device gd = target_device use_cuda.
Proof. by intros (_ & _ & _ & _ & ?)%batch_collector_Ok. Qed.

Lemma batch_collector_devices_witness :
  ∃ low hr,
    batch_collector one_pixel_or_more true
      (loader (corpus_in "RGB") (Some BILINEAR) 1) two_pairs = Ok (low, hr) ∧
    device hr = target_device true ∧
    device (low_tensor low) = target_device true ∧
    ∀ gd, guide low = Some gd → device gd = target_device true.
Proof.
  eexists _, _. split; [vm_compute; reflexivity|].
  apply (batch_collector_devices one_pixel_or_more true
           (loader (corpus_in "RGB") (Some BILINEAR) 1) two_pairs).
  vm_compute. reflexivity.
Defined.

(** A pair fetched from a corpus has the sizes of the stored pairs and the
    mode its colour mode leaves. *)
Lemma fetched_uniform (resizable : Z * Z → bool) (folder : list Image)
    (cap ps s level : Z) (method : option Filter) (color : string)
    (g g' : Rng) (ds : ImageData) (index : Z) (fetched : Image * Image) :
  ImageData_init resizable folder cap ps s level method color g = (Ok ds, g') →
  0 < ps → 0 < s →
  getitem ds index = Ok fetched →
  let md := if String.eqb color "RGB" then RGB else L in
  Z.of_nat (bands_of md) = fetched_channels color ∧
  (size fetched.1 = (ps `div` s, ps `div` s) ∧ mode fetched.1 = md) ∧
  (size fetched.2 = (ps, ps) ∧ mode fetched.2 = md).
Proof.
  intros Hinit Hps Hs (_ & stored & Hin & Hc)%getitem_Ok.
  destruct (corpus_pair_sizes _ _ _ _ _ _ _ _ _ _ _ _ Hinit Hps Hs Hin)
    as (Hhr & Hlr & _ & _).
  apply ImageData_init_Ok in Hinit as (_ & Hcolor & _). rewrite Hcolor in Hc.
  destruct Hc as [[-> ->]|[-> ->]]; by cbn.
Qed.

(** X13. From a corpus built with a positive patch size and shrink size,
    every batch fetched at a list of indices that is not empty collates,
    for every padding that is not negative (with a guide, as soon as the
    codec carries out the upsampling).  With [N] indices and [C] channels
    (3 for RGB, 1 for YCbCr) the high-resolution batch is
    [(N, C, ps, ps)], the low-resolution batch
    [(N, C, ps div s + 2 * pad, ps div s + 2 * pad)], and a guide is
    [(N, C, s * (ps div s), s * (ps div s))]. *)
Theorem loaded_batch_shapes (resizable : Z * Z → bool) (use_cuda : bool)
    (folder : list Image) (cap ps s level : Z) (method : option Filter)
    (color : string) (g g' : Rng) (ds : ImageData)
    (up : option Filter) (pad : Z)
    (indices : list Z) (batch : list (Image * Image)) :
  ImageData_init resizable folder cap ps s level method color g = (Ok ds, g') →
  0 < ps → 0 < s → 0 ≤ pad →
  indices ≠ [] →
  mapM (getitem ds) indices = Ok batch →
  (is_Some up → resizable (s * (ps `div` s), s * (ps `div` s)) = true) →
  ∃ low hr,
    batch_collector resizable use_cuda (loader ds up pad) batch = Ok (low, hr) ∧
    shape hr = [Z.of_nat (length indices); fetched_channels color; ps; ps] ∧
    shape (low_tensor low)
      = [Z.of_nat (length indices); fetched_channels color;
         ps `div` s + 2 * pad; ps `div` s + 2 * pad] ∧
    ∀ gd, guide low = Some gd →
      shape gd = [Z.of_nat (length indices); fetched_channels color;
                  s * (ps `div` s); s * (ps `div` s)].
Proof.
  intros Hinit Hps Hs Hpad Hne Hfetch Hup.
  apply mapM_result_Ok in Hfetch. pose proof (Forall2_length _ _ _ Hfetch) as Hlen.
  assert (∃ md, Z.of_nat (bands_of md) = fetched_channels color ∧
            Forall (λ p, (size p.1 = (ps `div` s, ps `div` s) ∧ mode p.1 = md) ∧
                         (size p.2 = (ps, ps) ∧ mode p.2 = md)) batch)
    as (md & Hmd & Hall).
  { exists (if String.eqb color "RGB" then RGB else L). split.
    - unfold fetched_channels. by destruct (String.eqb color "RGB").
    - apply Forall_forall. intros p Hp. apply list_elem_of_lookup in Hp as [k Hk].
      destruct (Forall2_lookup_r _ _ _ _ _ Hfetch Hk) as (i & _ & Hi).
      by destruct (fetched_uniform _ _ _ _ _ _ _ _ _ _ _ _ _ Hinit Hps Hs Hi)
        as (_ & ? & ?). }
  destruct batch as [|first rest]; [by destruct indices|].
  apply Forall_cons in Hall as [[[Hl1 Hl2] [Hh1 Hh2]] Hall].
  assert (shrink_size (img_augmenter ds) = s) as Hss.
  { apply ImageData_init_Ok in Hinit as (Haug & _).
    by apply ImageAugment_init_Ok in Haug as (? & _). }
  destruct (batch_collector_total resizable use_cuda ds up pad first rest)
    as [[low hr] Hrun].
  - done.
  - eapply Forall_impl; [exact Hall|]. intros p [[? ?] [? ?]]. split; split; congruence.
  - intros Hsome. rewrite Hss. split; [lia|].
    apply Forall_forall. intros p Hp.
    assert (size p.1 = (ps `div` s, ps `div` s)) as ->; [|by apply Hup].
    apply elem_of_cons in Hp as [->|Hp]; [done|].
    by destruct (proj1 (Forall_forall _ _) Hall p Hp) as [[? _] _].
  - exists low, hr. split; [done|].
    apply batch_collector_Ok in Hrun
      as (? & ? & [= <- <-] & (Hhr & Hlow & Hgd) & _).
    cbn [pad_img loader dataset loader_up_sample] in *.
    unfold channels in *. rewrite Hl1, Hl2, Hh1, Hh2, Hmd, Hlen, Hss in *.
    cbn [fst snd] in *. split_and!; [done..|].
    intros gd Hg. rewrite Hg in Hgd. by destruct up.
Qed.

Lemma loaded_batch_shapes_witness :
  ImageData_init one_pixel_or_more [Raster (64, 64)%N RGB "a.png"]
    10 32 2 1 None "RGB" noisy_draws = (Ok noisy_corpus, []) ∧
  0 < 32 ∧ 0 < 2 ∧ 0 ≤ 1 ∧
  [3; -1; 0] ≠ [] ∧
  ∃ batch,
    mapM (getitem noisy_corpus) [3; -1; 0] = Ok batch ∧
    ∃ low hr,
      batch_collector one_pixel_or_more false
        (loader noisy_corpus (Some BILINEAR) 1) batch = Ok (low, hr) ∧
      shape hr = [Z.of_nat (length [3; -1; 0]); fetched_channels "RGB"; 32; 32] ∧
      shape (low_tensor low)
        = [Z.of_nat (length [3; -1; 0]); fetched_channels "RGB";
           32 `div` 2 + 2 * 1; 32 `div` 2 + 2 * 1] ∧
      ∀ gd, guide low = Some gd →
        shape gd = [Z.of_nat (length [3; -1; 0]); fetched_channels "RGB";
                    2 * (32 `div` 2); 2 * (32 `div` 2)].
Proof.
  split; [vm_compute; reflexivity|]. split; [lia|]. split; [lia|].
  split; [lia|]. split; [discriminate|].
  eexists. split; [vm_compute; reflexivity|].
  apply (loaded_batch_shapes one_pixel_or_more false
           [Raster (64, 64)%N RGB "a.png"] 10 32 2 1 None "RGB" noisy_draws []
           noisy_corpus (Some BILINEAR) 1 [3; -1; 0]);
    [vm_compute; reflexivity|lia|lia|lia|discriminate|vm_compute; reflexivity|
     reflexivity].
Defined.

(** ** The entries of the collated tensors *)

Lemma to_tensor_data_length (pic : Image) :
  Z.of_nat (length (data (to_tensor pic)))
    = Z.of_nat (channels pic) * ((size pic).2 * ((size pic).1 * 1)).
Proof.
  unfold to_tensor. pose proof (size_nonneg pic) as [Hw Hh].
  destruct (size pic) as [w h]. cbn [data fst snd] in *.
  apply length_bind_seqZ; [lia|]. intros k _.
  apply length_bind_seqZ; [lia|]. intros y _.
  apply length_bind_seqZ; [lia|]. done.
Qed.

Lemma to_tensor_lookup (pic : Image) (k y x : Z) :
  0 ≤ k < Z.of_nat (channels pic) → 0 ≤ y < (size pic).2 → 0 ≤ x < (size pic).1 →
  data (to_tensor pic) !! Z.to_nat ((k * (size pic).2 + y) * (size pic).1 + x)
    = Some (Px pic k y x).
Proof.
  intros Hk Hy Hx. unfold to_tensor. destruct (size pic) as [w h].
  cbn [data fst snd] in *.
  assert (∀ k' y',
    Z.of_nat (length (seqZ 0 w ≫= λ x', [Px pic k' y' x'])) = w * 1) as L2.
  { intros. apply length_bind_seqZ; [lia|done]. }
  assert (∀ k',
    Z.of_nat (length (seqZ 0 h ≫= λ y', seqZ 0 w ≫= λ x', [Px pic k' y' x']))
    = h * (w * 1)) as L1.
  { intros. apply length_bind_seqZ; [lia|]. intros. apply L2. }
  set (r2 := x * 1 + 0). set (L2' := w * 1) in *.
  set (r1 := y * L2' + r2). set (L1' := h * L2') in *.
  assert (0 ≤ r2 < L2') by (subst r2 L2'; lia).
  assert (0 ≤ r1 < L1') by (subst r1 L1'; nia).
  replace ((k * h + y) * w + x) with (k * L1' + r1)
    by (subst r1 L1' r2 L2'; lia).
  rewrite (lookup_bind_seqZ _ L1' _ k); [|by intros|lia|lia].
  subst r1. rewrite (lookup_bind_seqZ _ L2' h y); [|by intros|lia|lia].
  subst r2. rewrite (lookup_bind_seqZ _ 1 w x); [done|done|lia|lia].
Qed.

Lemma stack_Ok_uniform (tensors : list Tensor) (t : Tensor) :
  stack tensors = Ok t →
  data t = mjoin (data <$> tensors) ∧
  ∀ t0 t', tensors !! 0%nat = Some t0 → t' ∈ tensors → shape t' = shape t0.
Proof.
  destruct tensors as [|t0 rest]; [discriminate|]. unfold stack.
  destruct (forallb _ rest) eqn:Hall; [|discriminate]. intros [= <-].
  split; [done|]. intros ? t' [= <-] [->|Hin]%elem_of_cons; [done|].
  rewrite forallb_forall in Hall. apply list_elem_of_In in Hin.
  by apply Hall, bool_decide_eq_true in Hin.
Qed.

(** The slice of a stacked batch at position [b] holds the image at
    position [b] of the batch. *)
Lemma stack_entry {A} (pic : A → Image) (batch : list A) (t : Tensor)
    (b : nat) (p : A) (k y x : Z) :
  stack ((λ i, to_tensor (pic i)) <$> batch) = Ok t →
  batch !! b = Some p →
  0 ≤ k < Z.of_nat (channels (pic p)) →
  0 ≤ y < (size (pic p)).2 → 0 ≤ x < (size (pic p)).1 →
  entry t (Z.of_nat b) k y x = Px (pic p) k y x.
Proof.
  intros Hstack Hb Hk Hy Hx.
  pose proof (stack_Ok_uniform _ _ Hstack) as [Hdata Hunif].
  apply stack_to_tensor_Ok in Hstack as (first & rest & -> & Hsh & _).
  assert (∀ q, q ∈ first :: rest →
            shape (to_tensor (pic q)) = shape (to_tensor (pic first))) as Hsame.
  { intros q Hq. apply (Hunif (to_tensor (pic first))); [done|].
    apply (list_elem_of_fmap_2 (λ i, to_tensor (pic i))) in Hq. done. }
  assert (Z.of_nat (channels (pic p)) = Z.of_nat (channels (pic first)) ∧
          size (pic p) = size (pic first)) as [Hc Hs].
  { specialize (Hsame p (list_elem_of_lookup_2 _ _ _ Hb)).
    rewrite !to_tensor_shape in Hsame. injection Hsame as ? ? ?.
    split; [done|]. destruct (size (pic p)), (size (pic first)); cbn in *.
    congruence. }
  rewrite Hc, Hs in *. unfold entry. rewrite Hsh, Hdata.
  set (C := Z.of_nat (channels (pic first))) in *.
  set (H := (size (pic first)).2) in *. set (W := (size (pic first)).1) in *.
  set (L := C * (H * (W * 1))).
  assert (0 ≤ k * H + y < C * H) as Hr1 by nia.
  assert (0 ≤ (k * H + y) * W + x < L) as Hr by (subst L; nia).
  assert (mjoin (data <$> ((λ i, to_tensor (pic i)) <$> first :: rest))
            !! Z.to_nat (((Z.of_nat b * C + k) * H + y) * W + x)
          = Some (Px (pic p) k y x)) as ->; [|done].
  apply (join_lookup_Some_same_length (Z.to_nat L)).
  - apply Forall_fmap, Forall_fmap, Forall_forall. intros q Hq. cbn.
    pose proof (to_tensor_data_length (pic q)) as Hlen.
    specialize (Hsame q Hq). rewrite !to_tensor_shape in Hsame.
    injection Hsame as Hc' Hh' Hw'. rewrite Hc', Hh', Hw' in Hlen.
    subst L C H W. lia.
  - exists b, (data (to_tensor (pic p))), (Z.to_nat ((k * H + y) * W + x)).
    split_and!.
    + rewrite !list_lookup_fmap, Hb. done.
    + rewrite <- (to_tensor_lookup (pic p)) by (rewrite ?Hc, ?Hs; done).
      by rewrite Hs.
    + replace (((Z.of_nat b * C + k) * H + y) * W + x)
        with (Z.of_nat b * L + ((k * H + y) * W + x)) by (subst L; lia).
      clearbody L. rewrite Z2Nat.inj_add, Z2Nat.inj_mul, Nat2Z.id by nia. done.
Qed.

Lemma stack_member_shape {A} (pic : A → Image) (batch : list A) (t : Tensor)
    (b : nat) (p : A) :
  stack ((λ i, to_tensor (pic i)) <$> batch) = Ok t →
  batch !! b = Some p →
  shape t = [Z.of_nat (length batch); Z.of_nat (channels (pic p));
             (size (pic p)).2; (size (pic p)).1].
Proof.
  intros Hstack Hb.
  pose proof (stack_Ok_uniform _ _ Hstack) as [_ Hunif].
  apply stack_to_tensor_Ok in Hstack as (first & rest & -> & Hsh & _).
  assert (shape (to_tensor (pic p)) = shape (to_tensor (pic first))) as Hsame.
  { apply (Hunif (to_tensor (pic first))); [done|].
    apply (list_elem_of_fmap_2 (λ i, to_tensor (pic i))).
    by eapply list_elem_of_lookup_2. }
  rewrite !to_tensor_shape in Hsame. injection Hsame as -> -> ->. done.
Qed.

(** X15. The collated tensors keep the order of the batch and the pixels of
    its images.  At batch position [b] the high-resolution tensor holds,
    channel by channel and row by row, the high-resolution member of the
    pair at position [b]; the low-resolution tensor holds its
    low-resolution member, moved by the padding along both spatial axes;
    the guide holds the resize of that low-resolution member to the shrink
    size times its dimensions, with the filter of the loader. *)
Theorem batch_collector_entries (resizable : Z * Z → bool) (use_cuda : bool)
    (self : ImageLoader) (batch : list (Image * Image))
    (low : LowBatch) (hr : Tensor) (b : nat) (p : Image * Image) :
  let s := shrink_size (img_augmenter (dataset self)) in
  batch_collector resizable use_cuda self batch = Ok (low, hr) →
  0 ≤ pad_img self →
  batch !! b = Some p →
  (∀ k y x,
     0 ≤ k < Z.of_nat (channels p.2) → 0 ≤ y < (size p.2).2 → 0 ≤ x < (size p.2).1 →
     entry hr (Z.of_nat b) k y x = Px p.2 k y x) ∧
  (∀ k y x,
     0 ≤ k < Z.of_nat (channels p.1) → 0 ≤ y < (size p.1).2 → 0 ≤ x < (size p.1).1 →
     entry (low_tensor low) (Z.of_nat b) k (y + pad_img self) (x + pad_img self)
       = Px p.1 k y x) ∧
  (∀ gd resample k y x,
     guide low = Some gd → loader_up_sample self = Some resample →
     0 ≤ k < Z.of_nat (channels p.1) →
     0 ≤ y < s * (size p.1).2 → 0 ≤ x < s * (size p.1).1 →
     entry gd (Z.of_nat b) k y x
       = Px (Resize (Z.to_N (s * (size p.1).1), Z.to_N (s * (size p.1).2))
               resample p.1) k y x).
Proof.
  intros s. unfold batch_collector, mbind, result_bind, mret, result_ret.
  destruct (stack ((λ i, to_tensor i.1) <$> batch)) as [lr|e] eqn:Hlr;
    [|discriminate].
  destruct (stack ((λ i, to_tensor i.2) <$> batch)) as [hr0|e] eqn:Hhr;
    [|discriminate].
  intros Hrun Hpad Hb.
  assert (∀ lr',
    (if bool_decide (pad_img self ≠ 0) then ZeroPad2d (pad_img self) lr else Ok lr)
      = Ok lr' →
    ∀ k y x,
      0 ≤ k < Z.of_nat (channels p.1) → 0 ≤ y < (size p.1).2 →
      0 ≤ x < (size p.1).1 →
      entry lr' (Z.of_nat b) k (y + pad_img self) (x + pad_img self)
        = Px p.1 k y x) as Hlow.
  { intros lr' Hlr' k y x Hk Hy Hx.
    pose proof (stack_entry fst batch lr b p k y x Hlr Hb Hk Hy Hx) as Hent.
    case_bool_decide as Hp.
    - pose proof (stack_member_shape fst batch lr b p Hlr Hb) as Hsh.
      apply lookup_lt_Some in Hb.
      rewrite (ZeroPad2d_entry _ _ _ _ _ _ _ _ _ _ _ Hsh Hlr') by (cbn; lia).
      rewrite bool_decide_eq_true_2 by (cbn; lia).
      by replace (y + pad_img self - pad_img self) with y by lia;
         replace (x + pad_img self - pad_img self) with x by lia.
    - injection Hlr' as <-.
      assert (pad_img self = 0) as -> by (destruct (decide (pad_img self = 0)); done).
      by rewrite !Z.add_0_r. }
  destruct (if bool_decide _ then _ else _) as [lr'|e]; [|discriminate].
  specialize (Hlow lr' eq_refl).
  assert (∀ k y x,
    0 ≤ k < Z.of_nat (channels p.2) → 0 ≤ y < (size p.2).2 →
    0 ≤ x < (size p.2).1 →
    entry (on_device use_cuda hr0) (Z.of_nat b) k y x = Px p.2 k y x) as Hhigh.
  { intros. rewrite entry_on_device. by apply (stack_entry snd batch). }
  destruct (loader_up_sample self) as [resample|].
  - destruct (mapM _ batch) as [ups|e] eqn:Hups; [|discriminate].
    destruct (stack (to_tensor <$> ups)) as [gd|e] eqn:Hgd; [|discriminate].
    injection Hrun as <- <-. cbn [low_tensor guide]. split_and!; [done| |].
    + intros. rewrite entry_on_device. by apply Hlow.
    + intros gd' resample' k y x [= <-] [= <-] Hk Hy Hx.
      rewrite entry_on_device. apply mapM_result_Ok in Hups.
      destruct (Forall2_lookup_l _ _ _ _ _ Hups Hb) as (up & Hup & Hres).
      rewrite up_sample_unfold in Hres. fold s in Hres.
      apply pil_resize_size in Hres as [Hsz ->]. cbn [fst snd] in *.
      apply (stack_entry id ups gd b _ k y x Hgd Hup); cbn [id].
      * done.
      * rewrite Hsz. done.
      * rewrite Hsz. done.
  - injection Hrun as <- <-. cbn [low_tensor guide]. split_and!; [done| |].
    + intros. rewrite entry_on_device. by apply Hlow.
    + intros ? ? ? ? ? [=].
Qed.

Lemma batch_collector_entries_witness :
  ∃ low hr p,
    batch_collector one_pixel_or_more false
      (loader (corpus_in "RGB") (Some BILINEAR) 2) two_pairs = Ok (low, hr) ∧
    0 ≤ 2 ∧
    two_pairs !! 1%nat = Some p ∧
    (∀ k y x,
       0 ≤ k < Z.of_nat (channels p.2) → 0 ≤ y < (size p.2).2 →
       0 ≤ x < (size p.2).1 →
       entry hr (Z.of_nat 1) k y x = Px p.2 k y x) ∧
    (∀ k y x,
       0 ≤ k < Z.of_nat (channels p.1) → 0 ≤ y < (size p.1).2 →
       0 ≤ x < (size p.1).1 →
       entry (low_tensor low) (Z.of_nat 1) k (y + 2) (x + 2) = Px p.1 k y x) ∧
    (∀ gd resample k y x,
       guide low = Some gd → Some BILINEAR = Some resample →
       0 ≤ k < Z.of_nat (channels p.1) →
       0 ≤ y < 2 * (size p.1).2 → 0 ≤ x < 2 * (size p.1).1 →
       entry gd (Z.of_nat 1) k y x
         = Px (Resize (Z.to_N (2 * (size p.1).1), Z.to_N (2 * (size p.1).2))
                 resample p.1) k y x).
Proof.
  eexists _, _, _. split; [vm_compute; reflexivity|]. split; [lia|].
  split; [reflexivity|].
  apply (batch_collector_entries one_pixel_or_more false
           (loader (corpus_in "RGB") (Some BILINEAR) 2) two_pairs _ _ 1%nat);
    [vm_compute; reflexivity|cbn; lia|reflexivity].
Defined.

(** ** Zero sizes, the order of the patches, the position fetched *)

(** X16. With a shrink size of zero every call of [process] on a box
    whose right and lower edges are not before its left and upper ones
    raises [ZeroDivisionError], whatever the patch and the codec's resize;
    with a fixed filter no draw is consumed before, without one exactly
    one. *)
Theorem process_zero_shrink (resizable : Z * Z → bool) (self : ImageAugment)
    (hr_patch : Image) (grid : Box) (g : Rng) :
  shrink_size self = 0 →
  ordered_box grid →
  process resizable self hr_patch grid g
    = (Raise ZeroDivisionError,
       match down_sample_method self with
       | Some _ => g
       | None => drop 1 g
       end).
Proof.
  intros Hs _. unfold process, shrink_img, mbind, M_bind.
  destruct (down_sample_method self) as [fixed|].
  - unfold mret, M_ret. by rewrite bool_decide_eq_true_2.
  - destruct (choice_total [BILINEAR; BICUBIC; LANCZOS] g) as (m & g1 & Hc & _);
      [done|].
    rewrite Hc. apply choice_run in Hc as [_ ->].
    by rewrite bool_decide_eq_true_2.
Qed.

Lemma process_zero_shrink_witness :
  shrink_size {| noise_level := (5, 25); shrink_size := 0;
                 down_sample_method := None |} = 0 ∧
  ordered_box (0, 0, 32, 32) ∧
  process one_pixel_or_more
    {| noise_level := (5, 25); shrink_size := 0; down_sample_method := None |}
    (Raster (64, 64)%N RGB "a.png") (0, 0, 32, 32) [7; 3]%nat
    = (Raise ZeroDivisionError, drop 1 [7; 3]%nat).
Proof.
  split; [reflexivity|]. split; [cbn; lia|].
  apply (process_zero_shrink one_pixel_or_more
           {| noise_level := (5, 25); shrink_size := 0; down_sample_method := None |}
           (Raster (64, 64)%N RGB "a.png") (0, 0, 32, 32) [7; 3]%nat);
    [reflexivity|cbn; lia].
Defined.

(** X17. With a patch size of zero and a folder that holds a file, building
    the data set raises [ZeroDivisionError] for each of the three noise
    levels, before any draw and whatever the file is. *)
Theorem init_zero_patch_size (resizable : Z * Z → bool) (img_file : Image)
    (others : list Image) (cap s level : Z) (method : option Filter)
    (color : string) (g : Rng) :
  level = 0 ∨ level = 1 ∨ level = 2 →
  ImageData_init resizable (img_file :: others) cap 0 s level method color g
    = (Raise ZeroDivisionError, g).
Proof.
  intros Hlevel.
  assert (∃ aug, ImageAugment_init s level method = Ok aug) as [aug Haug].
  { destruct Hlevel as [->|[->| ->]]; by eexists. }
  unfold ImageData_init, mbind, M_bind, lift. rewrite Haug.
  unfold get_img_patch_grids, mbind, M_bind. rewrite mapM_M_cons.
  unfold get_img_patches at 1. unfold mbind at 1, M_bind at 1.
  unfold get_img_grids. destruct (size (Convert RGB img_file)). done.
Qed.

Lemma init_zero_patch_size_witness :
  (1 = 0 ∨ 1 = 1 ∨ 1 = 2) ∧
  ImageData_init one_pixel_or_more
    (Raster (64, 64)%N RGB "a.png" :: []) 10 0 2 1 None "RGB" [4; 4]%nat
    = (Raise ZeroDivisionError, [4; 4]%nat).
Proof.
  split; [right; left; reflexivity|].
  apply (init_zero_patch_size one_pixel_or_more (Raster (64, 64)%N RGB "a.png")
           [] 10 2 1 None "RGB" [4; 4]%nat).
  right; left; reflexivity.
Defined.

(** X18. The patches of one file follow its grid: when [get_img_patches]
    returns, the planner has returned a grid for the file converted to RGB,
    on the same generator, and the high-resolution members of the pairs
    are the crops of the converted file at the boxes of that grid, box by
    box in the order of the grid. *)
Theorem get_img_patches_order (resizable : Z * Z → bool) (ps cap : Z)
    (self : ImageAugment) (img_file : Image) (g g' : Rng)
    (pairs : list (Image * Image)) :
  get_img_patches resizable ps cap self img_file g = (Ok pairs, g') →
  ∃ boxes g1,
    get_img_grids ps cap (Convert RGB img_file) g = (Ok boxes, g1) ∧
    pairs.*2 = (λ box, Crop box (Convert RGB img_file)) <$> boxes.
Proof.
  unfold get_img_patches. unfold mbind at 1, M_bind at 1.
  destruct (get_img_grids _ _ _ g) as [[boxes|e] g1] eqn:Hg; [|discriminate].
  intros Hrun. exists boxes, g1. split; [done|].
  assert (Forall2 (λ box (pair : Image * Image),
                     pair.2 = Crop box (Convert RGB img_file)) boxes pairs) as Hall.
  { eapply mapM_M_Ok; [|exact Hrun].
    intros box g0 [lr hr] g0' _ Hp. cbn [snd].
    unfold process, mbind, M_bind in Hp.
    destruct (shrink_img _ _ _ _) as [[lr0|?] ?]; [|discriminate].
    destruct (if bool_decide _ then _ else _) as [[?|?] ?]; [|discriminate].
    by injection Hp as _ <- _. }
  clear Hrun Hg. induction Hall as [|box pair boxes pairs Hp _ IH]; [done|].
  cbn [fmap list_fmap]. by rewrite Hp, <- IH.
Qed.

Lemma get_img_patches_order_witness :
  ∃ pairs g',
    get_img_patches one_pixel_or_more 32 2 halving
      (Raster (64, 64)%N RGB "a.png") [7; 5]%nat = (Ok pairs, g') ∧
    ∃ boxes g1,
      get_img_grids 32 2 (Convert RGB (Raster (64, 64)%N RGB "a.png")) [7; 5]%nat
        = (Ok boxes, g1) ∧
      pairs.*2
        = (λ box, Crop box (Convert RGB (Raster (64, 64)%N RGB "a.png"))) <$> boxes.
Proof.
  eexists _, _. split; [vm_compute; reflexivity|].
  eapply (get_img_patches_order one_pixel_or_more 32 2 halving
            (Raster (64, 64)%N RGB "a.png") [7; 5]%nat).
  vm_compute. reflexivity.
Defined.

(** X19. A fetch that returns has read the stored pair at position
    [index mod length], the Python position of the index; each member of
    what it returns is a conversion of the matching stored member, of the
    same size and with no further re-encoding. *)
Theorem getitem_position (self : ImageData) (index : Z)
    (fetched : Image * Image) :
  getitem self index = Ok fetched →
  ∃ stored,
    patch_grids self !! Z.to_nat (index `mod` len self) = Some stored ∧
    (fetched = (Convert RGB stored.1, Convert RGB stored.2) ∨
     fetched = (Band 0 (Convert YCbCr stored.1), Band 0 (Convert YCbCr stored.2))) ∧
    size fetched.1 = size stored.1 ∧ size fetched.2 = size stored.2 ∧
    jpeg_steps fetched.1 = jpeg_steps stored.1 ∧
    jpeg_steps fetched.2 = jpeg_steps stored.2.
Proof.
  unfold getitem, len, mbind, result_bind.
  destruct (list_getitem _ index) as [stored|e] eqn:Hget; [|discriminate].
  pose proof (list_getitem_Ok _ _ _ Hget) as [Hi _].
  assert (patch_grids self !! Z.to_nat (index `mod` Z.of_nat (length (patch_grids self)))
          = Some stored) as Hpos.
  { unfold list_getitem in Hget. destruct (decide (index < 0)) as [Hneg|Hneg].
    - rewrite (bool_decide_eq_true_2 (index < 0)) in Hget by done.
      rewrite bool_decide_eq_true_2 in Hget by lia.
      destruct (_ !! _) as [x|] eqn:Hx in Hget; [|discriminate].
      injection Hget as <-. rewrite <- Hx. f_equal. f_equal.
      symmetry. apply Z.mod_unique_pos with (q := -1); lia.
    - rewrite (bool_decide_eq_false_2 (index < 0)) in Hget by done.
      rewrite bool_decide_eq_true_2 in Hget by lia.
      destruct (_ !! _) as [x|] eqn:Hx in Hget; [|discriminate].
      injection Hget as <-. rewrite <- Hx. f_equal. f_equal.
      apply Z.mod_small. lia. }
  intros Hf. exists stored. split; [done|].
  destruct (String.eqb (color_mod self) "RGB").
  - injection Hf as <-. split_and!; [by left|done..].
  - destruct (String.eqb (color_mod self) "YCbCr"); [|discriminate].
    injection Hf as <-. split_and!; [by right|done..].
Qed.

Lemma getitem_position_witness :
  ∃ fetched,
    getitem (corpus_in "YCbCr") (-2) = Ok fetched ∧
    ∃ stored,
      patch_grids (corpus_in "YCbCr")
        !! Z.to_nat ((-2) `mod` len (corpus_in "YCbCr")) = Some stored ∧
      (fetched = (Convert RGB stored.1, Convert RGB stored.2) ∨
       fetched = (Band 0 (Convert YCbCr stored.1),
                  Band 0 (Convert YCbCr stored.2))) ∧
      size fetched.1 = size stored.1 ∧ size fetched.2 = size stored.2 ∧
      jpeg_steps fetched.1 = jpeg_steps stored.1 ∧
      jpeg_steps fetched.2 = jpeg_steps stored.2.
Proof.
  eexists. split; [vm_compute; reflexivity|].
  apply (getitem_position (corpus_in "YCbCr") (-2)). vm_compute. reflexivity.
Defined.
